(** * om-github-agent: the [issue_comment.created] handler of [src/index.ts]

    A shallow embedding of the comment handler: the two regular
    expressions it builds, the string operations it applies to their
    results, and the three REST calls it issues.  The start-up checks of
    the module and the simulated handler of the test file
    ([simulateCommandParsing]) are embedded beside it.

    Conventions of the model.
    - A JavaScript string is the list of its code units.  The model covers
      code units below 256 ([ascii]); [isWhiteSpace] and [Canonicalize] are
      the ECMAScript tables restricted to that range.
    - Regular expressions are matched by a backtracking matcher in
      continuation-passing style, the way ECMAScript defines pattern
      semantics, for the fragment the handler uses: pattern characters,
      the classes [\s], [\S] and [[^c]], greedy [+] on a character set,
      capturing groups, and a greedy optional non-capturing group; and,
      for what a mention name can bring in, [.] and classes [[abc]].
    - The mention name is spliced into the source of the mention pattern
      as it is.  [compile] reads the sources made of pattern characters,
      of [.] and of classes [[abc]] ([covered_source]); a name free of
      pattern syntax characters ([literal_source], true of the default
      name) makes the pattern a sequence of pattern characters, and the
      general theorems about the handler are stated for such names.
    - A RegExp object carries its flags and its mutable [lastIndex];
      [exec], [test] and [match] return the object as they leave it.
    - [logger] output is not part of the modelled trace. *)

From Stdlib Require Import Ascii String.
From Stdlib Require Import ZArith NArith Bool Arith Lia List.
Import ListNotations.

(** ** Strings *)

Definition str := list ascii.

(** String literals of the source, as code-unit lists. *)
Definition lit (s : string) : str := list_ascii_of_string s.
Arguments lit s%_string.

Definition ascii_eqb (a b : ascii) : bool := Ascii.eqb a b.

(** ECMAScript [WhiteSpace] and [LineTerminator] code points below 256:
    TAB, LF, VT, FF, CR, SP and NBSP.  Both [\s] and [String.prototype.trim]
    use this set. *)
Definition isWhiteSpace (c : ascii) : bool :=
  let n := N_of_ascii c in
  (((9 <=? n) && (n <=? 13)) || (n =? 32) || (n =? 160))%N.

Definition notWhiteSpace (c : ascii) : bool := negb (isWhiteSpace c).

(** [String.prototype.trim]. *)
Fixpoint trimStart (s : str) : str :=
  match s with
  | [] => []
  | c :: s' => if isWhiteSpace c then trimStart s' else s
  end.

Definition trimEnd (s : str) : str := rev (trimStart (rev s)).

Definition trim (s : str) : str := trimEnd (trimStart s).

(** [String.prototype.substring(start)]: a negative start is clamped to 0,
    a start beyond the end gives the empty string. *)
Definition substring (s : str) (start : Z) : str :=
  skipn (Z.to_nat (Z.max 0 start)) s.

(** [s.startsWith(pat)], the test [indexOf] performs at each position. *)
Fixpoint startsWith (s pat : str) {struct pat} : bool :=
  match pat, s with
  | [], _ => true
  | _ :: _, [] => false
  | p :: pat', c :: s' => ascii_eqb p c && startsWith s' pat'
  end.

Fixpoint indexOf_from (s pat : str) (i : nat) : Z :=
  if startsWith s pat then Z.of_nat i
  else match s with
       | [] => (-1)%Z
       | _ :: s' => indexOf_from s' pat (S i)
       end.

(** [String.prototype.indexOf(pat)]: first position of [pat], or -1. *)
Definition indexOf (s pat : str) : Z := indexOf_from s pat 0.

(** JavaScript truthiness of a string: the empty string is falsy. *)
Definition truthy (s : str) : bool :=
  match s with [] => false | _ :: _ => true end.

(** ** Regular expressions *)

(** [Canonicalize(ch)] of the ECMAScript pattern semantics (no [u] flag):
    with [ignoreCase], the code unit of [toUpperCase], unless that maps a
    code unit above 127 into ASCII or gives more than one code unit.
    Below 256: a-z and the accented lower-case letters move down by 32,
    U+00B5 goes to U+039C, U+00FF to U+0178, U+00DF stays. *)
Definition Canonicalize (ignoreCase : bool) (c : ascii) : N :=
  let n := N_of_ascii c in
  if negb ignoreCase then n
  else if ((97 <=? n) && (n <=? 122))%N then (n - 32)%N
  else if (n =? 181)%N then 924%N
  else if (n =? 255)%N then 376%N
  else if ((224 <=? n) && (n <=? 254) && negb (n =? 247))%N then (n - 32)%N
  else n.

(** Line terminators below 256: line feed and carriage return. *)
Definition isLineTerminator (c : ascii) : bool :=
  let n := N_of_ascii c in ((n =? 10) || (n =? 13))%N.

Inductive CharSet : Type :=
| PatternChar (c : ascii)      (* a literal pattern character *)
| WhiteSpaceClass              (* \s *)
| NonWhiteSpaceClass           (* \S *)
| NotChar (c : ascii)          (* [^c] *)
| AnyChar                      (* . , without the s flag *)
| OneOf (members : list ascii). (* [abc] *)

Inductive Regex : Type :=
| Empty
| Atom (cs : CharSet)
| Plus (cs : CharSet)          (* cs+ , greedy *)
| Seq (r1 r2 : Regex)
| Group (n : nat) (r : Regex)  (* the n-th capturing group *)
| Opt (r : Regex).             (* (?:r)? , greedy *)

(** The handler uses the escapes and the negated class only without
    [ignoreCase]; below 256 the flag would not change them.  A class
    holds [c] when one of its members canonicalizes to what [c] does. *)
Definition charset_match (ignoreCase : bool) (cs : CharSet) (c : ascii) : bool :=
  match cs with
  | PatternChar p => (Canonicalize ignoreCase p =? Canonicalize ignoreCase c)%N
  | WhiteSpaceClass => isWhiteSpace c
  | NonWhiteSpaceClass => notWhiteSpace c
  | NotChar p => negb (ascii_eqb p c)
  | AnyChar => negb (isLineTerminator c)
  | OneOf members =>
      existsb
        (fun a => (Canonicalize ignoreCase a =? Canonicalize ignoreCase c)%N)
        members
  end.

(** Captures: group number to captured text; an absent group is
    [undefined]. *)
Definition Captures := list (nat * str).

Fixpoint get_cap (n : nat) (caps : Captures) : option str :=
  match caps with
  | [] => None
  | (k, v) :: caps' => if Nat.eqb k n then Some v else get_cap n caps'
  end.

Fixpoint clear_cap (n : nat) (caps : Captures) : Captures :=
  match caps with
  | [] => []
  | (k, v) :: caps' =>
      if Nat.eqb k n then clear_cap n caps' else (k, v) :: clear_cap n caps'
  end.

Definition set_cap (n : nat) (v : str) (caps : Captures) : Captures :=
  (n, v) :: clear_cap n caps.

Fixpoint groups_of (r : Regex) : list nat :=
  match r with
  | Empty | Atom _ | Plus _ => []
  | Seq r1 r2 => groups_of r1 ++ groups_of r2
  | Group n r' => n :: groups_of r'
  | Opt r' => groups_of r'
  end.

(** A matcher state is the input still to be read and the captures so far;
    a continuation is the rest of the pattern. *)
Definition MatchState := (str * Captures)%type.
Definition Continuation := str -> Captures -> option MatchState.

(** [cs+]: one character of [cs], then as many more as possible; on
    failure of the continuation, give characters back one at a time. *)
Fixpoint plus_loop (ic : bool) (cs : CharSet) (s : str) (caps : Captures)
    (k : Continuation) : option MatchState :=
  match s with
  | [] => None
  | c :: s' =>
      if charset_match ic cs c then
        match plus_loop ic cs s' caps k with
        | Some r => Some r
        | None => k s' caps
        end
      else None
  end.

Fixpoint matcher (ic : bool) (r : Regex) (s : str) (caps : Captures)
    (k : Continuation) : option MatchState :=
  match r with
  | Empty => k s caps
  | Atom cs =>
      match s with
      | [] => None
      | c :: s' => if charset_match ic cs c then k s' caps else None
      end
  | Plus cs => plus_loop ic cs s caps k
  | Seq r1 r2 =>
      matcher ic r1 s caps (fun s1 caps1 => matcher ic r2 s1 caps1 k)
  | Group n r' =>
      matcher ic r' s caps
        (fun s1 caps1 =>
           k s1 (set_cap n (firstn (length s - length s1) s) caps1))
  | Opt r' =>
      (* one iteration first (its groups reset, an empty iteration
         refused), then zero iterations *)
      match matcher ic r' s (fold_right clear_cap caps (groups_of r'))
              (fun s1 caps1 =>
                 if Nat.eqb (length s1) (length s) then None else k s1 caps1)
      with
      | Some res => Some res
      | None => k s caps
      end
  end.

(** The array returned by [exec] / [match]: [index], element 0 and the
    captures. *)
Record MatchResult : Type := mkMatch {
  m_index : nat;
  m_0 : str;
  m_caps : Captures
}.

(** Leftmost match: try each start position in turn. *)
Fixpoint search (ic : bool) (r : Regex) (s : str) (i : nat)
    : option MatchResult :=
  match matcher ic r s [] (fun s' caps => Some (s', caps)) with
  | Some (s', caps) =>
      Some (mkMatch i (firstn (length s - length s') s) caps)
  | None =>
      match s with
      | [] => None
      | _ :: s' => search ic r s' (S i)
      end
  end.

(** A match at the start of [s] only, as the [y] flag asks for. *)
Definition match_at (ic : bool) (r : Regex) (s : str) (i : nat)
    : option MatchResult :=
  match matcher ic r s [] (fun s' caps => Some (s', caps)) with
  | Some (s', caps) =>
      Some (mkMatch i (firstn (length s - length s') s) caps)
  | None => None
  end.

(** A RegExp object: its pattern, the flags [i], [g] and [y], and the
    mutable [lastIndex]. *)
Record RegExp : Type := mkRegExp {
  re_source : Regex;
  re_ignoreCase : bool;
  re_global : bool;
  re_sticky : bool;
  re_lastIndex : nat
}.

(** [R.lastIndex = n]. *)
Definition set_lastIndex (n : nat) (R : RegExp) : RegExp :=
  mkRegExp (re_source R) (re_ignoreCase R) (re_global R) (re_sticky R) n.

(** The leftmost match of the pattern of [R] in [S], from position 0. *)
Definition leftmost (R : RegExp) (S : str) : option MatchResult :=
  search (re_ignoreCase R) (re_source R) S 0.

(** [R.exec(S)] (RegExpBuiltinExec): the result and the object as the
    call leaves it.  With [g] or [y] the search starts at [lastIndex],
    which a match moves to its end and a failure resets; without them
    [lastIndex] is neither read nor written. *)
Definition RegExp_exec (R : RegExp) (S : str) : option MatchResult * RegExp :=
  let stateful := re_global R || re_sticky R in
  let lastIndex := if stateful then re_lastIndex R else 0 in
  if length S <? lastIndex then
    (None, if stateful then set_lastIndex 0 R else R)
  else
    let found :=
      if re_sticky R
      then match_at (re_ignoreCase R) (re_source R) (skipn lastIndex S)
             lastIndex
      else search (re_ignoreCase R) (re_source R) (skipn lastIndex S)
             lastIndex in
    match found with
    | Some m =>
        (Some m,
         if stateful then set_lastIndex (m_index m + length (m_0 m)) R
         else R)
    | None => (None, if stateful then set_lastIndex 0 R else R)
    end.

(** [R.test(S)]. *)
Definition RegExp_test (R : RegExp) (S : str) : bool * RegExp :=
  let '(result, R') := RegExp_exec R S in
  (match result with Some _ => true | None => false end, R').

(** What [S.match(R)] returns when it is not [null]: the array of [exec],
    or, with the [g] flag, the array of all matched texts, which has no
    [index]. *)
Inductive MatchValue : Type :=
| ExecArray (m : MatchResult)
| StringArray (texts : list str).

(** The loop of [S.match(R)] with the [g] flag: [exec] until it fails,
    stepping over an empty match.  [lastIndex] grows at each turn, so
    the loop ends within [length S + 2] turns. *)
Fixpoint match_all (turns : nat) (R : RegExp) (S : str) (A : list str)
    : list str * RegExp :=
  match turns with
  | O => (A, R)
  | Datatypes.S turns' =>
      match RegExp_exec R S with
      | (Some m, R') =>
          match_all turns'
            (if truthy (m_0 m) then R'
             else set_lastIndex (Datatypes.S (re_lastIndex R')) R')
            S (A ++ [m_0 m])
      | (None, R') => (A, R')
      end
  end.

(** [S.match(R)]. *)
Definition String_match (S : str) (R : RegExp) : option MatchValue * RegExp :=
  if re_global R then
    let '(A, R') :=
      match_all (Datatypes.S (Datatypes.S (length S))) (set_lastIndex 0 R)
        S [] in
    (match A with [] => None | _ :: _ => Some (StringArray A) end, R')
  else
    let '(result, R') := RegExp_exec R S in
    (match result with Some m => Some (ExecArray m) | None => None end, R').

(** [parts[n]]. *)
Definition m_get (m : MatchResult) (n : nat) : option str :=
  match n with
  | O => Some (m_0 m)
  | _ => get_cap n (m_caps m)
  end.

(** [parts.length]: one more than the number of capturing groups. *)
Definition m_length (R : RegExp) : nat := S (length (groups_of (re_source R))).

(** [match.index], [match[n]] and [match.length] on what [S.match(R)]
    returned. *)
Definition v_index (v : MatchValue) : option nat :=
  match v with
  | ExecArray m => Some (m_index m)
  | StringArray _ => None
  end.

Definition v_get (v : MatchValue) (n : nat) : option str :=
  match v with
  | ExecArray m => m_get m n
  | StringArray texts => nth_error texts n
  end.

Definition v_length (R : RegExp) (v : MatchValue) : nat :=
  match v with
  | ExecArray _ => m_length R
  | StringArray texts => length texts
  end.

(** The pattern of a source string made of pattern characters only. *)
Fixpoint literal (p : str) : Regex :=
  match p with
  | [] => Empty
  | c :: p' => Seq (Atom (PatternChar c)) (literal p')
  end.

(** Syntax characters of the pattern grammar.  [new RegExp(src)] reads a
    source free of them as a sequence of pattern characters. *)
Definition syntax_character (c : ascii) : bool :=
  existsb (ascii_eqb c) (lit "^$\.*+?()[]{}|").

Definition literal_source (src : str) : bool :=
  forallb (fun c => negb (syntax_character c)) src.

(** A member of a class that stands for itself: not a syntax character
    and not the dash of a range. *)
Definition class_member (c : ascii) : bool :=
  negb (syntax_character c) && negb (ascii_eqb c "-").

(** The pattern of a source, read from left to right; [cls] holds the
    members read so far of a class that is still open.  The sources
    covered are those made of pattern characters, [.] and classes
    [[abc]] of members that stand for themselves ([covered_source]);
    on any other source the value is not what the engine makes of it. *)
Fixpoint compile_from (cls : option (list ascii)) (src : str) : Regex :=
  match src with
  | [] => Empty
  | c :: src' =>
      match cls with
      | None =>
          if ascii_eqb c "." then Seq (Atom AnyChar) (compile_from None src')
          else if ascii_eqb c "[" then compile_from (Some []) src'
          else Seq (Atom (PatternChar c)) (compile_from None src')
      | Some members =>
          if ascii_eqb c "]"
          then Seq (Atom (OneOf (rev members))) (compile_from None src')
          else compile_from (Some (c :: members)) src'
      end
  end.

Definition compile (src : str) : Regex := compile_from None src.

Fixpoint covered_from (cls : bool) (src : str) : bool :=
  match src with
  | [] => negb cls
  | c :: src' =>
      if cls then
        if ascii_eqb c "]" then covered_from false src'
        else class_member c && covered_from true src'
      else
        if ascii_eqb c "." then covered_from false src'
        else if ascii_eqb c "[" then covered_from true src'
        else negb (syntax_character c) && covered_from false src'
  end.

Definition covered_source (src : str) : bool := covered_from false src.

Definition has_flag (f : ascii) (flags : str) : bool :=
  existsb (ascii_eqb f) flags.

(** [new RegExp(source, flags)], flags among [i], [g] and [y]: a new
    object, its [lastIndex] 0. *)
Definition RegExp_new (source flags : str) : RegExp :=
  mkRegExp (compile source) (has_flag "i" flags) (has_flag "g" flags)
    (has_flag "y" flags) 0.

(** ** The handler's two patterns *)

(** [new RegExp(`@${appName} create-pr`, 'i')]. *)
Definition mention_source (appName : str) : str :=
  lit "@" ++ appName ++ lit " create-pr".

Definition mentionRegex (appName : str) : RegExp :=
  RegExp_new (mention_source appName) (lit "i").

(** The double-quote character, code unit 34. *)
Definition quote : ascii := Eval cbv in ascii_of_N 34.

(** The optional part of the command pattern, written here with [Q] for
    the escaped double quote:  \s+Q([^Q]+)Q  *)
Definition quoted_regex : Regex :=
  Seq (Plus WhiteSpaceClass)
    (Seq (Atom (PatternChar quote))
      (Seq (Group 3 (Plus (NotChar quote)))
           (Atom (PatternChar quote)))).

(** The pattern literal of the handler:  (\S+)\s+(\S+)(?:\s+Q([^Q]+)Q)?  *)
Definition commandRegex : RegExp :=
  mkRegExp
    (Seq (Group 1 (Plus NonWhiteSpaceClass))
      (Seq (Plus WhiteSpaceClass)
        (Seq (Group 2 (Plus NonWhiteSpaceClass))
          (Opt quoted_regex))))
    false false false 0.

(** ** The REST client *)

(** The error a rejected call carries: [error.message] and [error.status]
    (absent on errors that are not HTTP responses). *)
Record RequestError : Type := mkError {
  err_message : str;
  err_status : option Z
}.

Inductive Result (A : Type) : Type :=
| Ok (a : A)
| Throw (e : RequestError).
Arguments Ok {A} a.
Arguments Throw {A} e.

(** The calls the handler can issue, with their arguments. *)
Inductive Call : Type :=
| GetBranch (owner repo branch : str)
| PullsCreate (owner repo title head base body : str)
| CreateComment (owner repo : str) (issue_number : Z) (body : str).

(** The fields of the event the handler reads:
    [payload.comment.body], [payload.comment.user.login],
    [payload.issue.number] and [context.repo()]. *)
Record Context : Type := mkContext {
  comment_body : str;
  comment_user_login : str;
  issue_number : Z;
  repo_owner : str;
  repo_repo : str
}.

(** The outcome of the parsing part of the handler, in the words of the
    specification. *)
Record ParsedCommand : Type := mkCommand {
  sourceBranch : str;
  targetBranch : str;
  title : str
}.

Inductive ParseOutcome : Type :=
| NotMentioned
| Malformed
| Command (c : ParsedCommand).

(** [process.env.APP_NAME || 'om-bot']. *)
Definition appName_of_env (APP_NAME : option str) : str :=
  match APP_NAME with
  | Some n => if truthy n then n else lit "om-bot"
  | None => lit "om-bot"
  end.

(** [a || b] on a possibly undefined string. *)
Definition js_or (a : option str) (b : str) : str :=
  match a with
  | Some s => if truthy s then s else b
  | None => b
  end.

(** [parts[n]] for a group that always participates in a match
    (an undefined element would read as the empty string, equally falsy). *)
Definition m_str (m : MatchResult) (n : nat) : str :=
  match m_get m n with Some s => s | None => [] end.

(** The text following the matched mention, trimmed. *)
Definition commandPart_of (commentBody : str) (match_ : MatchResult) : str :=
  trim (substring commentBody
          (Z.of_nat (m_index match_) + Z.of_nat (length (m_0 match_)))).

(** [parts[3] || commandPart.substring(parts[0].indexOf(parts[2])
                                       + parts[2].length).trim()]. *)
Definition prTitle_of (commandPart : str) (parts : MatchResult) : str :=
  js_or (m_get parts 3)
    (trim (substring commandPart
             (indexOf (m_str parts 0) (m_str parts 2)
              + Z.of_nat (length (m_str parts 2))))).

Definition usage_text (appName : str) : str :=
  lit "Invalid command format. Please use: @" ++ appName
  ++ lit " create-pr <source-branch> <target-branch> " ++ [quote]
  ++ lit "<PR title>" ++ [quote].

Definition pr_body (commentAuthor appName : str) : str :=
  lit "Pull request created by @" ++ commentAuthor ++ lit " via "
  ++ appName ++ lit ".".

Definition success_text (html_url : str) : str :=
  lit "Successfully created pull request: " ++ html_url.

(** [error.status === n]. *)
Definition status_is (error : RequestError) (n : Z) : bool :=
  match err_status error with
  | Some s => (s =? n)%Z
  | None => false
  end.

(** The [errorMessage] of the catch block. *)
Definition errorMessage_of (error : RequestError) : str :=
  let errorMessage :=
    lit "Failed to create pull request. Error: " ++ err_message error
    ++ lit "." in
  if status_is error 422 then
    errorMessage
    ++ lit " This could be due to non-existent branches, no differences between branches, or insufficient permissions."
  else if status_is error 404 then
    errorMessage ++ lit " One or more branches were not found."
  else errorMessage.

(** [match[n]] read as a string, as [m_str] does. *)
Definition v_str (v : MatchValue) (n : nat) : str :=
  match v_get v n with Some s => s | None => [] end.

(** [parts[3] || commandPart.substring(parts[0].indexOf(parts[2])
                                       + parts[2].length).trim()]
    on what [commandPart.match(commandRegex)] returned. *)
Definition prTitle (commandPart : str) (parts : MatchValue) : str :=
  js_or (v_get parts 3)
    (trim (substring commandPart
             (indexOf (v_str parts 0) (v_str parts 2)
              + Z.of_nat (length (v_str parts 2))))).

(** The parsing part of the handler, lines 78 to 98, as a function of
    the two RegExp objects it works with and of the comment body: the
    outcome, and the two objects as the section leaves them.  The
    handler creates both objects anew at each run (lines 76 and 82). *)
Definition parsing_section (mentionRegex commandRegex : RegExp)
    (commentBody : str) : ParseOutcome * (RegExp * RegExp) :=
  let '(found, mentionRegex) := RegExp_test mentionRegex commentBody in
  if found then
    let '(match_, mentionRegex) := String_match commentBody mentionRegex in
    match match_ with
    | Some match_ =>
        match v_index match_ with
        | Some index =>
            let commandPart :=
              trim (substring commentBody
                      (Z.of_nat index + Z.of_nat (length (v_str match_ 0)))) in
            let '(parts, commandRegex) :=
              String_match commandPart commandRegex in
            (match parts with
             | Some parts =>
                 if 3 <=? v_length commandRegex parts then
                   let sourceBranch := v_str parts 1 in
                   let targetBranch := v_str parts 2 in
                   let prTitle := prTitle commandPart parts in
                   if negb (truthy sourceBranch) || negb (truthy targetBranch)
                      || negb (truthy prTitle)
                   then Malformed
                   else Command (mkCommand sourceBranch targetBranch prTitle)
                 else Malformed
             | None => Malformed
             end,
             (mentionRegex, commandRegex))
        | None => (NotMentioned, (mentionRegex, commandRegex))
        end
    | None => (NotMentioned, (mentionRegex, commandRegex))
    end
  else (NotMentioned, (mentionRegex, commandRegex)).

(** The function the specification calls [parse]: the parsing section on
    the objects of lines 76 and 82. *)
Definition parse (appName commentBody : str) : ParseOutcome :=
  fst (parsing_section (mentionRegex appName) commandRegex commentBody).

(** Two views of [parse]: the argument tail ([commandPart]) of a comment
    that holds the mention, and what the handler makes of a tail. *)
Definition argument_tail (appName commentBody : str) : option str :=
  match leftmost (mentionRegex appName) commentBody with
  | Some match_ => Some (commandPart_of commentBody match_)
  | None => None
  end.

Definition parse_tail (commandPart : str) : ParseOutcome :=
  match leftmost commandRegex commandPart with
  | Some parts =>
      let sourceBranch := m_str parts 1 in
      let targetBranch := m_str parts 2 in
      let prTitle := prTitle_of commandPart parts in
      if negb (truthy sourceBranch) || negb (truthy targetBranch)
         || negb (truthy prTitle)
      then Malformed
      else Command (mkCommand sourceBranch targetBranch prTitle)
  | None => Malformed
  end.

(** ** Words of the specification *)

(** A token: a non-empty run of characters other than white space. *)
Definition is_token (t : str) : bool := truthy t && forallb notWhiteSpace t.

(** A separator: a non-empty run of white space. *)
Definition is_spaces (w : str) : bool := truthy w && forallb isWhiteSpace w.

(** The pieces of [s] between white-space characters, empty ones
    included. *)
Fixpoint split_ws (s : str) : list str :=
  match s with
  | [] => [[]]
  | c :: s' =>
      if isWhiteSpace c then [] :: split_ws s'
      else match split_ws s' with
           | [] => [[c]]
           | w :: l => (c :: w) :: l
           end
  end.

(** The whitespace-delimited tokens of [s]. *)
Definition tokens (s : str) : list str := filter truthy (split_ws s).

(** [phrase] occurs in [body], up to the case folding of the [i] flag. *)
Definition contains_ci (phrase body : str) : Prop :=
  exists pre mid post,
    body = pre ++ mid ++ post /\
    Forall2 (fun p c => Canonicalize true p = Canonicalize true c) phrase mid.

(** The suffix the specification attaches to a failure of a given status
    code: one for 404, one for 422, none for anything else. *)
Definition classification_suffix (status : option Z) : str :=
  match status with
  | Some s =>
      if (s =? 404)%Z then lit " One or more branches were not found."
      else if (s =? 422)%Z then
        lit " This could be due to non-existent branches, no differences between branches, or insufficient permissions."
      else []
  | None => []
  end.

(** The comments among the calls of a trace. *)
Definition comments (t : list Call) : list Call :=
  filter (fun c => match c with CreateComment _ _ _ _ => true | _ => false end) t.

(** The pull-request creations among the calls of a trace. *)
Definition creations (t : list Call) : list Call :=
  filter (fun c => match c with PullsCreate _ _ _ _ _ _ => true | _ => false end) t.

(** ** The handler *)

Section Handler.

(** The state of the hosting service, which the answers of the REST
    client may depend on and its calls may change. *)
Variable World : Type.

Record Octokit : Type := mkOctokit {
  repos_getBranch : str -> str -> str -> World -> Result unit * World;
  (* the answer carries [data.html_url] *)
  pulls_create :
    str -> str -> str -> str -> str -> str -> World -> Result str * World;
  issues_createComment :
    str -> str -> Z -> str -> World -> Result unit * World
}.

(** Handler computations: the world and the trace of calls issued so far
    are threaded through; a rejected call throws. *)
Definition M (A : Type) : Type :=
  World * list Call -> Result A * (World * list Call).

Definition ret {A} (a : A) : M A := fun st => (Ok a, st).

Definition bind {A B} (m : M A) (k : A -> M B) : M B :=
  fun st =>
    match m st with
    | (Ok a, st') => k a st'
    | (Throw e, st') => (Throw e, st')
    end.

Definition try_catch {A} (m : M A) (h : RequestError -> M A) : M A :=
  fun st =>
    match m st with
    | (Ok a, st') => (Ok a, st')
    | (Throw e, st') => h e st'
    end.

Definition call {A} (c : Call) (f : World -> Result A * World) : M A :=
  fun st =>
    let '(r, w) := f (fst st) in (r, (w, snd st ++ [c])).

Variable octokit : Octokit.

Definition getBranch (owner repo branch : str) : M unit :=
  call (GetBranch owner repo branch)
       (repos_getBranch octokit owner repo branch).

Definition create (owner repo title head base body : str) : M str :=
  call (PullsCreate owner repo title head base body)
       (pulls_create octokit owner repo title head base body).

Definition createComment (owner repo : str) (issue_number : Z) (body : str)
    : M unit :=
  call (CreateComment owner repo issue_number body)
       (issues_createComment octokit owner repo issue_number body).

Notation "x <- m ;; k" := (bind m (fun x => k))
  (at level 61, m at next level, right associativity).
Notation "m ;;; k" := (bind m (fun _ => k))
  (at level 61, right associativity).

(** The [try] / [catch] of the handler, for a command that passed the
    guard: the executor of the specification. *)
Definition execute (appName : str) (context : Context)
    (sourceBranch targetBranch prTitle : str) : M unit :=
  let owner := repo_owner context in
  let repo := repo_repo context in
  let commentAuthor := comment_user_login context in
  try_catch
    (getBranch owner repo sourceBranch ;;;
     html_url <- create owner repo prTitle sourceBranch targetBranch
                   (pr_body commentAuthor appName) ;;
     createComment owner repo (issue_number context)
       (success_text html_url))
    (fun error =>
       createComment owner repo (issue_number context)
         (errorMessage_of error)).

(** [probot.on('issue_comment.created', async (context) => ...)]. *)
Definition handler (appName : str) (context : Context) : M unit :=
  let owner := repo_owner context in
  let repo := repo_repo context in
  let commentBody := comment_body context in
  let commentAuthor := comment_user_login context in
  let mentionRegex := mentionRegex appName in
  let '(found, mentionRegex) := RegExp_test mentionRegex commentBody in
  if found then
    let '(match_, mentionRegex) := String_match commentBody mentionRegex in
    match match_ with
    | Some match_ =>
        match v_index match_ with
        | Some index =>
            let commandPart :=
              trim (substring commentBody
                      (Z.of_nat index + Z.of_nat (length (v_str match_ 0)))) in
            let '(parts, commandRegex) :=
              String_match commandPart commandRegex in
            match parts with
            | Some parts =>
                if 3 <=? v_length commandRegex parts then
                  let sourceBranch := v_str parts 1 in
                  let targetBranch := v_str parts 2 in
                  let prTitle := prTitle commandPart parts in
                  if negb (truthy sourceBranch) || negb (truthy targetBranch)
                     || negb (truthy prTitle)
                  then
                    createComment owner repo (issue_number context)
                      (usage_text appName)
                  else
                    try_catch
                      (getBranch owner repo sourceBranch ;;;
                       prResponse <- create owner repo prTitle sourceBranch
                                       targetBranch
                                       (pr_body commentAuthor appName) ;;
                       createComment owner repo (issue_number context)
                         (success_text prResponse))
                      (fun error =>
                         createComment owner repo (issue_number context)
                           (errorMessage_of error))
                else
                  createComment owner repo (issue_number context)
                    (usage_text appName)
            | None =>
                createComment owner repo (issue_number context)
                  (usage_text appName)
            end
        | None => ret tt
        end
    | None => ret tt
    end
  else ret tt.

(** What the handler does once the comment is parsed. *)
Definition dispatch (appName : str) (context : Context) (o : ParseOutcome)
    : M unit :=
  match o with
  | NotMentioned => ret tt
  | Malformed =>
      createComment (repo_owner context) (repo_repo context)
        (issue_number context) (usage_text appName)
  | Command c =>
      execute appName context (sourceBranch c) (targetBranch c) (title c)
  end.

(** Running a computation on a fresh trace. *)
Definition run (m : M unit) (w : World) : Result unit * (World * list Call) :=
  m (w, []).

Definition trace (m : M unit) (w : World) : list Call := snd (snd (run m w)).

End Handler.

Arguments mkOctokit {World} _ _ _.
Arguments repos_getBranch {World} _ _ _ _ _.
Arguments pulls_create {World} _ _ _ _ _ _ _ _.
Arguments issues_createComment {World} _ _ _ _ _ _.
Arguments ret {World A} a _.
Arguments bind {World A B} m k _.
Arguments try_catch {World A} m h _.
Arguments call {World A} c f _.
Arguments getBranch {World} octokit owner repo branch _.
Arguments create {World} octokit owner repo title head base body _.
Arguments createComment {World} octokit owner repo issue_number body _.
Arguments execute {World} octokit appName context sourceBranch targetBranch
  prTitle _.
Arguments handler {World} octokit appName context _.
Arguments dispatch {World} octokit appName context o _.
Arguments run {World} m w.
Arguments trace {World} m w.

(** ** Test doubles of the repository's test file *)

(** [mockContext], with the comment body to deliver. *)
Definition mockContext (body : str) : Context :=
  mkContext body (lit "test-user") 123 (lit "test-owner") (lit "test-repo").

(** [mockOctokit] with [getBranch] and [pulls.create] resolving or
    rejecting as given; [createComment] resolves. *)
Definition mockOctokit (getBranch_answer : Result unit)
    (create_answer : Result str) : Octokit unit :=
  mkOctokit
    (fun _ _ _ w => (getBranch_answer, w))
    (fun _ _ _ _ _ _ w => (create_answer, w))
    (fun _ _ _ _ w => (Ok tt, w)).

(** The comment bodies and the errors of the tests. *)
Definition body_valid : str :=
  lit "@om-bot create-pr feature/new-branch main " ++ [quote]
  ++ lit "Add awesome feature" ++ [quote].

Definition body_lookup_failure : str :=
  lit "@om-bot create-pr non-existent-branch main " ++ [quote]
  ++ lit "Test failure" ++ [quote].

Definition body_api_error : str :=
  lit "@om-bot create-pr feature/valid-branch main " ++ [quote]
  ++ lit "Test API error" ++ [quote].

Definition body_unquoted : str :=
  lit "@om-bot create-pr main develop My Feature Title".

Definition branchNotFoundError : RequestError :=
  mkError (lit "Branch not found") (Some 404%Z).

Definition apiError : RequestError :=
  mkError (lit "API Error") (Some 422%Z).

Definition pull_1 : str :=
  lit "https://github.com/test-owner/test-repo/pull/1".

(** A comment whose quoted title is one space. *)
Definition body_blank_title : str :=
  lit "@om-bot create-pr A B " ++ [quote] ++ lit " " ++ [quote].

(** ** The calls of an event *)

(** The comment the handler posts: always on the issue of the event. *)
Definition comment_call (context : Context) (body : str) : Call :=
  CreateComment (repo_owner context) (repo_repo context)
    (issue_number context) body.

(** The branch lookup and the creation for a command. *)
Definition lookup_call (context : Context) (c : ParsedCommand) : Call :=
  GetBranch (repo_owner context) (repo_repo context) (sourceBranch c).

Definition creation_call (appName : str) (context : Context)
    (c : ParsedCommand) : Call :=
  PullsCreate (repo_owner context) (repo_repo context) (title c)
    (sourceBranch c) (targetBranch c)
    (pr_body (comment_user_login context) appName).

(** A client on which lookup and creation resolve and every comment is
    rejected. *)
Definition muteOctokit (html_url : str) (error : RequestError)
    : Octokit unit :=
  mkOctokit
    (fun _ _ _ w => (Ok tt, w))
    (fun _ _ _ _ _ _ w => (Ok html_url, w))
    (fun _ _ _ _ w => (Throw error, w)).

(** ** The simulated handler of [src/__tests__/om-github-agent.test.ts] *)

(** The object [simulateCommandParsing] resolves to:
    [{ success: true, prUrl }] or [{ success: false, error }]. *)
Inductive SimulationResult : Type :=
| SimSuccess (prUrl : str)
| SimFailure (error : str).

(** The calls and the result of a computation started on a fresh trace. *)
Definition calls_of {World A : Type} (m : M World A) (w : World)
    : list Call :=
  snd (snd (m (w, []))).

Definition result_of {World A : Type} (m : M World A) (w : World)
    : Result A :=
  fst (m (w, [])).

Section Simulation.

Variable World : Type.

(** [context.octokit.rest]. *)
Variable octokit : Octokit World.

Notation "x <- m ;; k" := (bind m (fun x => k))
  (at level 61, m at next level, right associativity).
Notation "m ;;; k" := (bind m (fun _ => k))
  (at level 61, right associativity).

(** [simulateCommandParsing(commentBody, context)], with the value of
    [process.env.APP_NAME] at the time of the call.  The coordinates of
    the calls and the address of the success comment are the constants
    of the source. *)
Definition simulateCommandParsing (APP_NAME : option str)
    (commentBody : str) : M World SimulationResult :=
  let appName := appName_of_env APP_NAME in
  let mentionRegex := mentionRegex appName in
  let '(found, mentionRegex) := RegExp_test mentionRegex commentBody in
  if found then
    let '(match_, mentionRegex) := String_match commentBody mentionRegex in
    match match_ with
    | Some match_ =>
        match v_index match_ with
        | Some index =>
            let commandPart :=
              trim (substring commentBody
                      (Z.of_nat index + Z.of_nat (length (v_str match_ 0)))) in
            let '(parts, commandRegex) :=
              String_match commandPart commandRegex in
            match parts with
            | Some parts =>
                if 3 <=? v_length commandRegex parts then
                  let sourceBranch := v_str parts 1 in
                  let targetBranch := v_str parts 2 in
                  let prTitle := prTitle commandPart parts in
                  try_catch
                    (getBranch octokit (lit "test-owner") (lit "test-repo")
                       sourceBranch ;;;
                     create octokit (lit "test-owner") (lit "test-repo")
                       prTitle sourceBranch targetBranch
                       (lit "Pull request created by @test-user via "
                        ++ appName ++ lit ".") ;;;
                     createComment octokit (lit "test-owner")
                       (lit "test-repo") 123
                       (lit "Successfully created pull request: https://github.com/test-owner/test-repo/pull/1") ;;;
                     ret (SimSuccess
                            (lit "https://github.com/test-owner/test-repo/pull/1")))
                    (fun error =>
                       let errorMessage := errorMessage_of error in
                       createComment octokit (lit "test-owner")
                         (lit "test-repo") 123 errorMessage ;;;
                       ret (SimFailure errorMessage))
                else
                  createComment octokit (lit "test-owner") (lit "test-repo")
                    123 (usage_text appName) ;;;
                  ret (SimFailure (lit "Invalid command format"))
            | None =>
                createComment octokit (lit "test-owner") (lit "test-repo") 123
                  (usage_text appName) ;;;
                ret (SimFailure (lit "Invalid command format"))
            end
        | None =>
            ret (SimFailure (lit "Mention not found or command malformed"))
        end
    | None =>
        ret (SimFailure (lit "Mention not found or command malformed"))
    end
  else ret (SimFailure (lit "Mention not found or command malformed")).

End Simulation.

Arguments simulateCommandParsing {World} octokit APP_NAME commentBody _.

(** The condition of the empty-field guard of the handler, which the
    simulated handler lacks: the arguments match the command pattern and
    one of the three fields is empty. *)
Definition guard_fires (appName commentBody : str) : bool :=
  match argument_tail appName commentBody with
  | Some commandPart =>
      match leftmost commandRegex commandPart with
      | Some parts =>
          negb (truthy (m_str parts 1)) || negb (truthy (m_str parts 2))
          || negb (truthy (prTitle_of commandPart parts))
      | None => false
      end
  | None => false
  end.

(** ** Start-up of [src/index.ts] *)

(** The environment variables the module reads, each set or not. *)
Record Env : Type := mkEnv {
  APP_ID : option str;
  PRIVATE_KEY_PATH : option str;
  WEBHOOK_SECRET : option str;
  APP_NAME : option str;
  PORT : option str
}.

(** [!x] on a possibly undefined string. *)
Definition falsy (x : option str) : bool :=
  match x with
  | Some s => negb (truthy s)
  | None => true
  end.

(** What start-up does before the server is built. *)
Inductive StartEffect : Type :=
| LoggedError (message : str)
| ReadFile (path : str).

(** How start-up ends: [process.exit(code)], or the values the server is
    built from: the text given to [Number] for the app id, the private
    key, the webhook secret, the mention name and the text given to
    [parseInt] for the port. *)
Inductive StartOutcome : Type :=
| Exited (code : Z)
| Configured (appId privateKey webhookSecret appName port : str).

(** Lines 24 to 41 and 159 of the module, on the environment as
    [dotenv.config()] leaves it; [readFileSync] is the file system, read
    as text. *)
Definition startup (env : Env) (readFileSync : str -> Result str)
    : list StartEffect * StartOutcome :=
  let appId := APP_ID env in
  let privateKeyPath := PRIVATE_KEY_PATH env in
  let webhookSecret := WEBHOOK_SECRET env in
  let appName := appName_of_env (APP_NAME env) in
  if falsy appId || falsy privateKeyPath || falsy webhookSecret then
    ([LoggedError
        (lit "Missing required environment variables: APP_ID, PRIVATE_KEY_PATH, WEBHOOK_SECRET")],
     Exited 1)
  else
    let appId := js_or appId [] in
    let privateKeyPath := js_or privateKeyPath [] in
    let webhookSecret := js_or webhookSecret [] in
    match readFileSync privateKeyPath with
    | Ok privateKey =>
        ([ReadFile privateKeyPath],
         Configured appId privateKey webhookSecret appName
           (js_or (PORT env) (lit "3000")))
    | Throw error =>
        ([ReadFile privateKeyPath;
          LoggedError
            (lit "Error reading private key file at " ++ privateKeyPath
             ++ lit ": " ++ err_message error)],
         Exited 1)
    end.

(** ** Scenarios *)

(** An error of the hosting service that is neither 404 nor 422. *)
Definition forbiddenError : RequestError :=
  mkError (lit "Resource not accessible by integration") (Some 403%Z).

(** The command of the first test. *)
Definition command_valid : ParsedCommand :=
  mkCommand (lit "feature/new-branch") (lit "main")
    (lit "Add awesome feature").

(** The third test: two branches and no title. *)
Definition body_missing_title : str :=
  lit "@om-bot create-pr feature-branch main".

(** The eighth test, whose creation answers with pull request 2. *)
Definition body_quoted_title : str :=
  lit "@om-bot create-pr dev main " ++ [quote]
  ++ lit "Feature: Add new login functionality with validation" ++ [quote].

Definition command_quoted_title : ParsedCommand :=
  mkCommand (lit "dev") (lit "main")
    (lit "Feature: Add new login functionality with validation").

Definition pull_2 : str :=
  lit "https://github.com/test-owner/test-repo/pull/2".

(** The phrase in capitals, after other text. *)
Definition body_capitals : str := lit "please @OM-BOT CREATE-PR".

(** A target branch whose name occurs in the name of the source
    branch. *)
Definition body_release : str :=
  lit "@om-bot create-pr release-v2 v2 Ship it".

(** A complete environment and a file system that holds the key. *)
Definition env_complete : Env :=
  mkEnv (Some (lit "12345")) (Some (lit "./private-key.pem"))
    (Some (lit "s3cret")) None None.

Definition fs_with_key (path : str) : Result str := Ok (lit "KEY").

(** ** Functions used to state the properties *)

(** A property of code units that [vm_compute] can check on all 256. *)
Definition every_ascii (P : ascii -> bool) : bool :=
  forallb P (map ascii_of_nat (seq 0 256)).

Definition ci_eqb (a c : ascii) : bool :=
  (Canonicalize true a =? Canonicalize true c)%N.

(** The longest prefix whose characters satisfy [f], and what follows
    it. *)
Fixpoint takeWhile (f : ascii -> bool) (s : str) : str :=
  match s with
  | [] => []
  | c :: s' => if f c then c :: takeWhile f s' else []
  end.

Fixpoint dropWhile (f : ascii -> bool) (s : str) : str :=
  match s with
  | [] => []
  | c :: s' => if f c then dropWhile f s' else s
  end.

(** [stops f s]: [s] does not start with a character of [f]. *)
Definition stops (f : ascii -> bool) (s : str) : bool :=
  match s with
  | [] => true
  | c :: _ => negb (f c)
  end.

(** [ci_prefix ic p s]: [s] starts with the characters of [p], compared
    the way the matcher compares pattern characters. *)
Fixpoint ci_prefix (ic : bool) (p s : str) : bool :=
  match p, s with
  | [], _ => true
  | _ :: _, [] => false
  | a :: p', c :: s' =>
      charset_match ic (PatternChar a) c && ci_prefix ic p' s'
  end.

(** First position at or after [i] where [p] occurs. *)
Fixpoint find_ci (ic : bool) (p s : str) (i : nat) : option nat :=
  if ci_prefix ic p s then Some i
  else match s with
       | [] => None
       | _ :: s' => find_ci ic p s' (S i)
       end.

Definition notQuote (c : ascii) : bool := negb (ascii_eqb quote c).

(** A quoted title at the start of [rest]: white space, a quote, one or
    more characters other than a quote, a quote.  Gives the quoted text
    and what follows the closing quote. *)
Definition quoted_title (rest : str) : option (str * str) :=
  match takeWhile isWhiteSpace rest with
  | [] => None
  | _ :: _ =>
      match dropWhile isWhiteSpace rest with
      | [] => None
      | q :: r2 =>
          if ascii_eqb quote q then
            match takeWhile notQuote r2, dropWhile notQuote r2 with
            | _ :: _, _ :: more => Some (takeWhile notQuote r2, more)
            | _, _ => None
            end
          else None
      end
  end.

(** What [commandRegex] finds in a string that does not start with white
    space: the first two tokens and, when a quoted title follows them
    directly, that title. *)
Definition command_spec (s : str) : option MatchResult :=
  let A := takeWhile notWhiteSpace s in
  let r1 := dropWhile notWhiteSpace s in
  let ws := takeWhile isWhiteSpace r1 in
  let r2 := dropWhile isWhiteSpace r1 in
  let B := takeWhile notWhiteSpace r2 in
  let rest := dropWhile notWhiteSpace r2 in
  match A, ws, B with
  | _ :: _, _ :: _, _ :: _ =>
      match quoted_title rest with
      | Some (T, more) =>
          Some (mkMatch 0 (firstn (length s - length more) s)
                  [(3, T); (2, B); (1, A)])
      | None => Some (mkMatch 0 (A ++ ws ++ B) [(2, B); (1, A)])
      end
  | _, _, _ => None
  end.

(** The continuation that ends a match. *)
Definition k_done : Continuation := fun s' caps => Some (s', caps).

(** The number of at signs in a string. *)
Definition at_count (s : str) : nat := length (filter (ascii_eqb "@") s).

(** * Properties *)

(** ** Characters *)

#[local] Arguments ascii_eqb : simpl never.
#[local] Arguments isWhiteSpace : simpl never.
#[local] Arguments Canonicalize : simpl never.

Lemma every_ascii_spec (P : ascii -> bool) :
  every_ascii P = true -> forall c, P c = true.
Proof.
  unfold every_ascii. intros H c.
  rewrite forallb_forall in H. apply H.
  rewrite <- (ascii_nat_embedding c). apply in_map.
  apply in_seq. pose proof (nat_ascii_bounded c). lia.
Qed.

Lemma ascii_eqb_eq (a b : ascii) : ascii_eqb a b = true <-> a = b.
Proof. unfold ascii_eqb. apply Ascii.eqb_eq. Qed.

Lemma ascii_eqb_refl (a : ascii) : ascii_eqb a a = true.
Proof. apply ascii_eqb_eq. reflexivity. Qed.

Lemma notWhiteSpace_false (c : ascii) :
  notWhiteSpace c = false <-> isWhiteSpace c = true.
Proof. unfold notWhiteSpace. destruct (isWhiteSpace c); simpl; intuition congruence. Qed.

Lemma notWhiteSpace_true (c : ascii) :
  notWhiteSpace c = true <-> isWhiteSpace c = false.
Proof. unfold notWhiteSpace. destruct (isWhiteSpace c); simpl; intuition congruence. Qed.


Lemma Canonicalize_at (c : ascii) :
  Canonicalize true "@" = Canonicalize true c -> c = "@"%char.
Proof.
  intro H.
  assert (E : every_ascii (fun c =>
                implb (ci_eqb "@" c) (ascii_eqb c "@")) = true)
    by (vm_compute; reflexivity).
  pose proof (every_ascii_spec _ E c) as E'. cbv beta in E'.
  unfold ci_eqb in E'. rewrite H, N.eqb_refl in E'.
  apply ascii_eqb_eq. exact E'.
Qed.

Lemma Canonicalize_exact (a c : ascii) :
  Canonicalize false a = Canonicalize false c -> c = a.
Proof.
  unfold Canonicalize; simpl. intro H.
  rewrite <- (ascii_N_embedding a), <- (ascii_N_embedding c). congruence.
Qed.

(** ** Prefixes of a list that satisfy a test *)

Section Spans.
Variable f : ascii -> bool.

Lemma take_drop (s : str) : takeWhile f s ++ dropWhile f s = s.
Proof. induction s as [|c s IH]; simpl; auto. destruct (f c); simpl; congruence. Qed.

Lemma takeWhile_all (s : str) : forallb f (takeWhile f s) = true.
Proof. induction s as [|c s IH]; simpl; auto. destruct (f c) eqn:E; simpl; auto. rewrite E; auto. Qed.

Lemma dropWhile_stops (s : str) : stops f (dropWhile f s) = true.
Proof. induction s as [|c s IH]; simpl; auto. destruct (f c) eqn:E; simpl; auto. rewrite E; auto. Qed.

Lemma takeWhile_app (a r : str) :
  forallb f a = true -> stops f r = true ->
  takeWhile f (a ++ r) = a.
Proof.
  induction a as [|c a IH]; simpl; intros Ha Hr.
  - destruct r as [|d r]; simpl in *; auto. destruct (f d); simpl in *; congruence.
  - apply andb_true_iff in Ha as [Hc Ha]. rewrite Hc, IH; auto.
Qed.

Lemma dropWhile_app (a r : str) :
  forallb f a = true -> stops f r = true ->
  dropWhile f (a ++ r) = r.
Proof.
  induction a as [|c a IH]; simpl; intros Ha Hr.
  - destruct r as [|d r]; simpl in *; auto. destruct (f d); simpl in *; congruence.
  - apply andb_true_iff in Ha as [Hc Ha]. rewrite Hc, IH; auto.
Qed.

Lemma takeWhile_nil_stops (s : str) : takeWhile f s = [] -> stops f s = true.
Proof. destruct s as [|c s]; simpl; auto. destruct (f c); simpl; congruence. Qed.

Lemma stops_takeWhile (s : str) : stops f s = true -> takeWhile f s = [].
Proof. destruct s as [|c s]; simpl; auto. destruct (f c); simpl; congruence. Qed.

Lemma stops_dropWhile (s : str) : stops f s = true -> dropWhile f s = s.
Proof. destruct s as [|c s]; simpl; auto. destruct (f c); simpl; congruence. Qed.

Lemma dropWhile_length (s : str) : length (dropWhile f s) <= length s.
Proof. induction s as [|c s IH]; simpl; auto. destruct (f c); simpl; lia. Qed.
End Spans.

(** ** The matcher on [cs+] *)

Section PlusLoop.
Variables (ic : bool) (cs : CharSet).
Local Abbreviation f := (charset_match ic cs).

Lemma plus_loop_none (s : str) (caps : Captures) (k : Continuation) :
  takeWhile f s = [] -> plus_loop ic cs s caps k = None.
Proof.
  destruct s as [|c s]; simpl; auto. destruct (f c); congruence.
Qed.

(** When the continuation succeeds after the longest run, that run is
    the one taken. *)
Lemma plus_loop_first (s : str) (caps : Captures) (k : Continuation) r :
  takeWhile f s <> [] ->
  k (dropWhile f s) caps = Some r ->
  plus_loop ic cs s caps k = Some r.
Proof.
  induction s as [|c s IH]; simpl; intros Hne Hk; [congruence|].
  destruct (f c) eqn:Hc; [|congruence].
  destruct (takeWhile f s) as [|d t] eqn:Ht.
  - apply takeWhile_nil_stops in Ht.
    rewrite (stops_dropWhile _ _ Ht) in Hk.
    destruct s as [|d s]; simpl; [exact Hk|].
    simpl in Ht. destruct (f d); simpl in *; [congruence|exact Hk].
  - rewrite IH; auto. congruence.
Qed.

(** When the continuation refuses every input that starts with a
    character of [cs], only the longest run can be taken. *)
Lemma plus_loop_only (s : str) (caps : Captures) (k : Continuation) :
  (forall c s', f c = true -> k (c :: s') caps = None) ->
  plus_loop ic cs s caps k =
    match takeWhile f s with
    | [] => None
    | _ :: _ => k (dropWhile f s) caps
    end.
Proof.
  intro Hk. induction s as [|c s IH]; simpl; auto.
  destruct (f c) eqn:Hc; auto.
  rewrite IH. destruct s as [|d s]; simpl; auto.
  destruct (f d) eqn:Hd; auto.
  destruct (k (dropWhile f s) caps); auto.
Qed.
End PlusLoop.

(** ** The mention pattern *)

Lemma matcher_literal ic (p s : str) caps (k : Continuation) :
  matcher ic (literal p) s caps k =
    if ci_prefix ic p s then k (skipn (length p) s) caps else None.
Proof.
  revert s. induction p as [|a p IH]; intros s; simpl; auto.
  destruct s as [|c s]; auto.
  destruct (Canonicalize ic a =? Canonicalize ic c)%N; simpl; auto.
Qed.

Lemma ci_prefix_length ic (p s : str) :
  ci_prefix ic p s = true -> length p <= length s.
Proof.
  revert s. induction p as [|a p IH]; intros [|c s]; simpl; intro H;
    try lia; try discriminate.
  apply andb_true_iff in H as [_ H]. apply IH in H. lia.
Qed.

Lemma find_ci_ge ic p s i j : find_ci ic p s i = Some j -> i <= j.
Proof.
  revert i. induction s as [|c s IH]; intros i; simpl.
  - destruct (ci_prefix ic p []); intro H; inversion H; lia.
  - destruct (ci_prefix ic p (c :: s)); intro H.
    + inversion H; lia.
    + apply IH in H. lia.
Qed.

Lemma search_literal ic (p s : str) (i : nat) :
  search ic (literal p) s i =
    match find_ci ic p s i with
    | Some j => Some (mkMatch j (firstn (length p) (skipn (j - i) s)) [])
    | None => None
    end.
Proof.
  revert i. induction s as [|c s IH]; intros i.
  - simpl. rewrite matcher_literal. destruct (ci_prefix ic p []) eqn:E; auto.
    apply ci_prefix_length in E. simpl in E.
    rewrite Nat.sub_diag. destruct p; simpl in *; [reflexivity|lia].
  - cbn [search find_ci]. rewrite matcher_literal.
    destruct (ci_prefix ic p (c :: s)) eqn:E.
    + rewrite Nat.sub_diag. cbn [skipn]. rewrite length_skipn.
      apply ci_prefix_length in E.
      replace (length (c :: s) - (length (c :: s) - length p)) with (length p) by lia.
      reflexivity.
    + rewrite IH. destruct (find_ci ic p s (S i)) as [j|] eqn:F; auto.
      apply find_ci_ge in F.
      replace (j - i) with (S (j - S i)) by lia. reflexivity.
Qed.

(** ** The command pattern *)

Lemma firstn_takeWhile f (s : str) :
  firstn (length s - length (dropWhile f s)) s = takeWhile f s.
Proof.
  rewrite <- (take_drop f s) at 1 3.
  rewrite length_app.
  replace (length (takeWhile f s) + length (dropWhile f s)
           - length (dropWhile f s)) with (length (takeWhile f s) + 0) by lia.
  rewrite firstn_app_2. simpl. apply app_nil_r.
Qed.

Lemma quote_is_char (c : ascii) :
  charset_match false (PatternChar quote) c = ascii_eqb quote c.
Proof.
  unfold charset_match. destruct (ascii_eqb quote c) eqn:E.
  - apply ascii_eqb_eq in E. subst c. apply N.eqb_refl.
  - apply N.eqb_neq. intro H. apply Canonicalize_exact in H.
    subst c. rewrite ascii_eqb_refl in E. discriminate.
Qed.

Lemma quote_not_space (c : ascii) :
  isWhiteSpace c = true -> ascii_eqb quote c = false.
Proof.
  intro H.
  assert (E : every_ascii (fun c =>
                implb (isWhiteSpace c) (negb (ascii_eqb quote c))) = true)
    by (vm_compute; reflexivity).
  pose proof (every_ascii_spec _ E c) as E'. cbv beta in E'.
  rewrite H in E'.
  destruct (ascii_eqb quote c); [discriminate E'|reflexivity].
Qed.

Lemma matcher_atom_quote (s : str) caps (k : Continuation) :
  matcher false (Atom (PatternChar quote)) s caps k =
    match s with
    | [] => None
    | q :: s' => if ascii_eqb quote q then k s' caps else None
    end.
Proof. destruct s as [|q s']; cbn [matcher]; auto. rewrite quote_is_char. reflexivity. Qed.

Lemma class_space : charset_match false WhiteSpaceClass = isWhiteSpace.
Proof. reflexivity. Qed.

Lemma class_nonspace : charset_match false NonWhiteSpaceClass = notWhiteSpace.
Proof. reflexivity. Qed.

Lemma class_notquote : charset_match false (NotChar quote) = notQuote.
Proof. reflexivity. Qed.

Lemma matcher_quoted (rest : str) caps (k : Continuation) :
  matcher false quoted_regex rest caps k =
    match quoted_title rest with
    | Some (T, more) => k more (set_cap 3 T caps)
    | None => None
    end.
Proof.
  unfold quoted_regex, quoted_title.
  cbn [matcher]. rewrite plus_loop_only.
  2:{ intros c s' Hc. rewrite class_space in Hc.
      change (matcher false (Atom (PatternChar quote)) (c :: s') caps
                (fun s1 caps1 =>
                   matcher false (Seq (Group 3 (Plus (NotChar quote)))
                                      (Atom (PatternChar quote))) s1 caps1 k)
              = None).
      rewrite matcher_atom_quote, (quote_not_space _ Hc). reflexivity. }
  rewrite class_space.
  destruct (takeWhile isWhiteSpace rest); auto.
  destruct (dropWhile isWhiteSpace rest) as [|q r2]; auto.
  rewrite quote_is_char. destruct (ascii_eqb quote q); auto.
  rewrite plus_loop_only.
  2:{ intros c s' Hc. rewrite class_notquote in Hc. rewrite quote_is_char.
      unfold notQuote in Hc. destruct (ascii_eqb quote c); simpl in *; congruence. }
  rewrite class_notquote.
  destruct (takeWhile notQuote r2) as [|t T] eqn:HT; auto.
  pose proof (dropWhile_stops notQuote r2) as Hs.
  pose proof (firstn_takeWhile notQuote r2) as Hf.
  destruct (dropWhile notQuote r2) as [|q' more]; auto.
  rewrite quote_is_char. simpl in Hs. unfold notQuote in Hs.
  destruct (ascii_eqb quote q'); simpl in Hs; [|discriminate].
  rewrite Hf, HT. reflexivity.
Qed.

Lemma quoted_title_shorter (rest T more : str) :
  quoted_title rest = Some (T, more) -> length more < length rest.
Proof.
  unfold quoted_title.
  destruct (takeWhile isWhiteSpace rest); [discriminate|].
  pose proof (dropWhile_length isWhiteSpace rest) as H1.
  destruct (dropWhile isWhiteSpace rest) as [|q r2]; [discriminate|].
  destruct (ascii_eqb quote q); [|discriminate].
  pose proof (dropWhile_length notQuote r2) as H2.
  destruct (takeWhile notQuote r2); [discriminate|].
  destruct (dropWhile notQuote r2) as [|q' more']; [discriminate|].
  intro H; inversion H; subst. simpl in *. lia.
Qed.

Lemma matcher_command (s : str) :
  matcher false (re_source commandRegex) s [] k_done =
    let A := takeWhile notWhiteSpace s in
    let r1 := dropWhile notWhiteSpace s in
    let ws := takeWhile isWhiteSpace r1 in
    let r2 := dropWhile isWhiteSpace r1 in
    let B := takeWhile notWhiteSpace r2 in
    let rest := dropWhile notWhiteSpace r2 in
    match A, ws, B with
    | _ :: _, _ :: _, _ :: _ =>
        match quoted_title rest with
        | Some (T, more) => Some (more, [(3, T); (2, B); (1, A)])
        | None => Some (rest, [(2, B); (1, A)])
        end
    | _, _, _ => None
    end.
Proof.
  cbn zeta. cbn [re_source commandRegex matcher].
  rewrite plus_loop_only.
  2:{ intros c s' Hc. rewrite class_nonspace in Hc. cbn [plus_loop].
      rewrite class_space, (proj1 (notWhiteSpace_true c) Hc). reflexivity. }
  rewrite class_nonspace.
  pose proof (firstn_takeWhile notWhiteSpace s) as HA.
  destruct (takeWhile notWhiteSpace s) as [|a A] eqn:EA; auto.
  rewrite plus_loop_only.
  2:{ intros c s' Hc. rewrite class_space in Hc. cbn [plus_loop].
      rewrite class_nonspace. unfold notWhiteSpace. rewrite Hc. reflexivity. }
  rewrite class_space.
  set (r1 := dropWhile notWhiteSpace s) in *.
  destruct (takeWhile isWhiteSpace r1) as [|w ws] eqn:Ews; auto.
  set (r2 := dropWhile isWhiteSpace r1) in *.
  pose proof (firstn_takeWhile notWhiteSpace r2) as HB.
  destruct (takeWhile notWhiteSpace r2) as [|b B] eqn:EB.
  { apply plus_loop_none. rewrite class_nonspace. exact EB. }
  set (rest := dropWhile notWhiteSpace r2) in *.
  destruct (quoted_title rest) as [[T more]|] eqn:EQ;
    (apply plus_loop_first;
     [ rewrite class_nonspace, EB; discriminate
     | rewrite class_nonspace, HA; fold rest; rewrite HB;
       rewrite matcher_quoted; rewrite EQ ]).
  - apply quoted_title_shorter in EQ. unfold k_done.
    destruct (Nat.eqb_spec (length more) (length rest)); [lia|]. reflexivity.
  - reflexivity.
Qed.

Lemma forallb_takeWhile f (w : str) : forallb f w = true -> takeWhile f w = w.
Proof.
  induction w as [|c w IH]; simpl; auto. intro H.
  apply andb_true_iff in H as [Hc H]. rewrite Hc, IH; auto.
Qed.

Lemma forallb_dropWhile f (w : str) : forallb f w = true -> dropWhile f w = [].
Proof.
  induction w as [|c w IH]; simpl; auto. intro H.
  apply andb_true_iff in H as [Hc H]. rewrite Hc, IH; auto.
Qed.

Lemma spaces_stop (w : str) :
  forallb isWhiteSpace w = true -> stops notWhiteSpace w = true.
Proof.
  destruct w as [|c w]; simpl; auto. intro H.
  apply andb_true_iff in H as [Hc _]. unfold notWhiteSpace. rewrite Hc. reflexivity.
Qed.

Lemma stops_both (s : str) :
  stops isWhiteSpace s = true -> stops notWhiteSpace s = true -> s = [].
Proof.
  destruct s as [|c s]; simpl; auto. unfold notWhiteSpace.
  destruct (isWhiteSpace c); simpl; congruence.
Qed.

(** A token followed by white space only holds no match, at any start
    position. *)
Lemma search_tokenless (A w : str) (i : nat) :
  forallb notWhiteSpace A = true -> forallb isWhiteSpace w = true ->
  search false (re_source commandRegex) (A ++ w) i = None.
Proof.
  intros HA Hw. revert i. induction A as [|a A IHA]; intros i.
  - simpl app. revert i. induction w as [|c w IHw]; intros i.
    + reflexivity.
    + cbn [search]. change (fun s' caps => Some (s', caps)) with k_done.
      rewrite matcher_command. cbn zeta.
      simpl in Hw. apply andb_true_iff in Hw as [Hc Hw].
      rewrite (stops_takeWhile notWhiteSpace (c :: w))
        by (simpl; unfold notWhiteSpace; rewrite Hc; reflexivity).
      apply IHw; auto.
  - cbn [search app]. change (fun s' caps => Some (s', caps)) with k_done.
    rewrite matcher_command. cbn zeta.
    change (a :: A ++ w) with ((a :: A) ++ w).
    rewrite (dropWhile_app notWhiteSpace (a :: A) w HA (spaces_stop w Hw)).
    rewrite (forallb_dropWhile isWhiteSpace w Hw). cbn [takeWhile].
    simpl in HA. apply andb_true_iff in HA as [Ha HA].
    replace (match takeWhile notWhiteSpace ((a :: A) ++ w) with
             | [] => None
             | _ :: _ => match takeWhile isWhiteSpace w with
                         | [] => None
                         | _ :: _ => @None MatchState
                         end
             end) with (@None MatchState)
      by (destruct (takeWhile notWhiteSpace ((a :: A) ++ w)); auto;
          destruct (takeWhile isWhiteSpace w); auto).
    apply IHA; auto.
Qed.

Lemma firstn_prefix (a b : str) : firstn (length (a ++ b) - length b) (a ++ b) = a.
Proof.
  rewrite length_app.
  replace (length a + length b - length b) with (length a + 0) by lia.
  rewrite firstn_app_2. simpl. apply app_nil_r.
Qed.

Lemma search_unfold ic r (s : str) (i : nat) :
  search ic r s i =
    match matcher ic r s [] k_done with
    | Some (s', caps) =>
        Some (mkMatch i (firstn (length s - length s') s) caps)
    | None =>
        match s with
        | [] => None
        | _ :: s' => search ic r s' (S i)
        end
    end.
Proof. destruct s; reflexivity. Qed.

(** [commandRegex] on a string that does not start with white space. *)
Lemma exec_command (s : str) :
  stops isWhiteSpace s = true ->
  leftmost commandRegex s = command_spec s.
Proof.
  intro Hs. unfold leftmost, command_spec. cbn [re_ignoreCase commandRegex].
  pose proof (take_drop notWhiteSpace s) as E1.
  pose proof (take_drop isWhiteSpace (dropWhile notWhiteSpace s)) as E2.
  pose proof (take_drop notWhiteSpace
                (dropWhile isWhiteSpace (dropWhile notWhiteSpace s))) as E3.
  pose proof (takeWhile_all notWhiteSpace s) as F1.
  pose proof (takeWhile_all isWhiteSpace (dropWhile notWhiteSpace s)) as F2.
  pose proof (dropWhile_stops notWhiteSpace s) as S1.
  pose proof (dropWhile_stops isWhiteSpace (dropWhile notWhiteSpace s)) as S2.
  rewrite search_unfold, matcher_command. cbn zeta.
  remember (takeWhile notWhiteSpace s) as A eqn:HA.
  remember (dropWhile notWhiteSpace s) as r1 eqn:Hr1.
  remember (takeWhile isWhiteSpace r1) as ws eqn:Hws.
  remember (dropWhile isWhiteSpace r1) as r2 eqn:Hr2.
  remember (takeWhile notWhiteSpace r2) as B eqn:HB.
  remember (dropWhile notWhiteSpace r2) as rest eqn:Hrest.
  assert (Hnone : (A = [] \/ ws = [] \/ B = []) ->
                  match s with
                  | [] => None
                  | _ :: s' => search false (re_source commandRegex) s' 1
                  end = None).
  { intro H. assert (E : r2 = []).
    { destruct H as [H|[H|H]].
      - assert (s = []) as ->.
        { apply stops_both; auto. apply takeWhile_nil_stops. congruence. }
        subst. reflexivity.
      - assert (r1 = []) as E.
        { apply stops_both; auto. apply takeWhile_nil_stops. congruence. }
        subst r2. rewrite E. reflexivity.
      - subst r2. apply stops_both; auto.
        apply takeWhile_nil_stops. congruence. }
    destruct s as [|c s']; auto.
    pose proof (search_tokenless A ws 0 F1 F2) as N.
    rewrite E, app_nil_r in E2. rewrite <- E2 in E1. rewrite E1 in N.
    rewrite search_unfold in N.
    destruct (matcher false (re_source commandRegex) (c :: s') [] k_done)
      as [[? ?]|]; [discriminate N|exact N]. }
  destruct A as [|a A']; [apply Hnone; auto|].
  destruct ws as [|w ws']; [apply Hnone; auto|].
  destruct B as [|b B']; [apply Hnone; auto|].
  clear Hnone.
  destruct (quoted_title rest) as [[T more]|]; auto.
  do 2 f_equal.
  rewrite <- E1, <- E2, <- E3.
  rewrite !app_assoc. rewrite firstn_prefix. rewrite <- !app_assoc. reflexivity.
Qed.

(** ** [trim] *)

Lemma trimStart_dropWhile (s : str) : trimStart s = dropWhile isWhiteSpace s.
Proof.
  induction s as [|c s IH]; simpl; [reflexivity|].
  destruct (isWhiteSpace c); [exact IH|reflexivity].
Qed.

Lemma trimEnd_prefix (s : str) :
  exists w, s = trimEnd s ++ w /\ forallb isWhiteSpace w = true.
Proof.
  unfold trimEnd. rewrite trimStart_dropWhile.
  exists (rev (takeWhile isWhiteSpace (rev s))). split.
  - rewrite <- rev_app_distr, take_drop, rev_involutive. reflexivity.
  - rewrite forallb_forall. intros c Hc. apply in_rev in Hc.
    pose proof (takeWhile_all isWhiteSpace (rev s)) as H.
    rewrite forallb_forall in H. auto.
Qed.

Lemma trimEnd_stops (s : str) :
  stops isWhiteSpace s = true -> stops isWhiteSpace (trimEnd s) = true.
Proof.
  intro Hs. destruct (trimEnd_prefix s) as [w [E Hw]].
  destruct (trimEnd s) as [|c t]; auto.
  rewrite E in Hs. exact Hs.
Qed.

Lemma trim_stops (x : str) : stops isWhiteSpace (trim x) = true.
Proof.
  unfold trim. apply trimEnd_stops. rewrite trimStart_dropWhile.
  apply dropWhile_stops.
Qed.

(** [trimEnd] leaves a string that ends with a character other than white
    space as it is. *)
Lemma trimEnd_fixed (t : str) (d : ascii) :
  isWhiteSpace d = false -> trimEnd (t ++ [d]) = t ++ [d].
Proof.
  intro Hd. unfold trimEnd. rewrite rev_app_distr. simpl.
  rewrite Hd. change (d :: rev t) with ([d] ++ rev t).
  rewrite rev_app_distr, rev_involutive. reflexivity.
Qed.

Lemma trimEnd_nil : trimEnd [] = [].
Proof. reflexivity. Qed.

(** The result of [trimEnd] is empty or ends with a character other than
    white space. *)
Lemma trimEnd_last (s : str) :
  trimEnd s = [] \/ exists t d, trimEnd s = t ++ [d] /\ isWhiteSpace d = false.
Proof.
  unfold trimEnd. rewrite trimStart_dropWhile.
  pose proof (dropWhile_stops isWhiteSpace (rev s)) as H.
  destruct (dropWhile isWhiteSpace (rev s)) as [|d r]; [left; reflexivity|].
  right. exists (rev r), d. simpl in *. split; [reflexivity|].
  destruct (isWhiteSpace d); simpl in *; congruence.
Qed.

Lemma trimEnd_idem (s : str) : trimEnd (trimEnd s) = trimEnd s.
Proof.
  destruct (trimEnd_last s) as [E|[t [d [E Hd]]]]; rewrite E.
  - reflexivity.
  - apply trimEnd_fixed. exact Hd.
Qed.

Lemma trim_idem (x : str) : trim (trim x) = trim x.
Proof.
  unfold trim at 1. rewrite trimStart_dropWhile.
  rewrite (stops_dropWhile _ _ (trim_stops x)).
  unfold trim. apply trimEnd_idem.
Qed.

(** ** RegExp objects without the g and y flags *)

(** Without [g] and [y], [exec] gives the leftmost match whatever
    [lastIndex] holds, and leaves the object as it is. *)
Lemma exec_stateless (R : RegExp) (S : str) :
  re_global R = false -> re_sticky R = false ->
  RegExp_exec R S = (leftmost R S, R).
Proof.
  intros G Y. unfold RegExp_exec, leftmost. rewrite G, Y. cbn [orb skipn].
  destruct (search (re_ignoreCase R) (re_source R) S 0); reflexivity.
Qed.

Lemma test_stateless (R : RegExp) (S : str) :
  re_global R = false -> re_sticky R = false ->
  RegExp_test R S
  = (match leftmost R S with Some _ => true | None => false end, R).
Proof.
  intros G Y. unfold RegExp_test. rewrite exec_stateless by assumption.
  reflexivity.
Qed.

Lemma match_stateless (R : RegExp) (S : str) :
  re_global R = false -> re_sticky R = false ->
  String_match S R
  = (match leftmost R S with Some m => Some (ExecArray m) | None => None end,
     R).
Proof.
  intros G Y. unfold String_match. rewrite G, exec_stateless by assumption.
  reflexivity.
Qed.

(** ** The two views of [parse] *)

(** The parsing section on the objects of the handler, whatever their
    [lastIndex]. *)
Lemma parsing_section_spec (appName body : str) (i j : nat) :
  parsing_section (set_lastIndex i (mentionRegex appName))
    (set_lastIndex j commandRegex) body
  = (match argument_tail appName body with
     | Some tail => parse_tail tail
     | None => NotMentioned
     end,
     (set_lastIndex i (mentionRegex appName), set_lastIndex j commandRegex)).
Proof.
  unfold parsing_section.
  rewrite test_stateless by reflexivity.
  change (leftmost (set_lastIndex i (mentionRegex appName)) body)
    with (leftmost (mentionRegex appName) body).
  unfold argument_tail.
  destruct (leftmost (mentionRegex appName) body) as [m|] eqn:E;
    [|reflexivity].
  rewrite match_stateless by reflexivity.
  change (leftmost (set_lastIndex i (mentionRegex appName)) body)
    with (leftmost (mentionRegex appName) body).
  rewrite E. cbn [v_index].
  change (trim (substring body
                  (Z.of_nat (m_index m)
                   + Z.of_nat (length (v_str (ExecArray m) 0)))))
    with (commandPart_of body m).
  rewrite match_stateless by reflexivity.
  change (leftmost (set_lastIndex j commandRegex) (commandPart_of body m))
    with (leftmost commandRegex (commandPart_of body m)).
  unfold parse_tail.
  destruct (leftmost commandRegex (commandPart_of body m)) as [parts|];
    reflexivity.
Qed.

Lemma parse_unfold (appName body : str) :
  parse appName body =
    match argument_tail appName body with
    | Some tail => parse_tail tail
    | None => NotMentioned
    end.
Proof.
  unfold parse.
  change (parsing_section (mentionRegex appName) commandRegex body)
    with (parsing_section (set_lastIndex 0 (mentionRegex appName))
            (set_lastIndex 0 commandRegex) body).
  rewrite parsing_section_spec. reflexivity.
Qed.

Lemma argument_tail_trimmed (appName body tail : str) :
  argument_tail appName body = Some tail -> stops isWhiteSpace tail = true.
Proof.
  unfold argument_tail, commandPart_of.
  destruct (leftmost (mentionRegex appName) body); intro H; inversion H.
  apply trim_stops.
Qed.

(** The outcome for a tail in terms of its first two tokens. *)
Lemma parse_tail_spec (tail : str) :
  stops isWhiteSpace tail = true ->
  parse_tail tail =
    match command_spec tail with
    | Some parts =>
        if truthy (prTitle_of tail parts)
        then Command (mkCommand (m_str parts 1) (m_str parts 2)
                        (prTitle_of tail parts))
        else Malformed
    | None => Malformed
    end.
Proof.
  intro Hs. unfold parse_tail. rewrite (exec_command _ Hs).
  unfold command_spec.
  destruct (takeWhile notWhiteSpace tail) as [|a A]; auto.
  destruct (takeWhile isWhiteSpace (dropWhile notWhiteSpace tail)) as [|w ws]; auto.
  destruct (takeWhile notWhiteSpace
              (dropWhile isWhiteSpace (dropWhile notWhiteSpace tail)))
    as [|b B]; auto.
  destruct (quoted_title _) as [[T more]|];
    cbv zeta; set (t := prTitle_of tail _); simpl; destruct (truthy t); reflexivity.
Qed.

(** ** Tokens *)

Lemma is_token_spec (t : str) :
  is_token t = true <-> t <> [] /\ forallb notWhiteSpace t = true.
Proof.
  unfold is_token. rewrite andb_true_iff. destruct t; simpl; intuition congruence.
Qed.

Lemma is_spaces_spec (w : str) :
  is_spaces w = true <-> w <> [] /\ forallb isWhiteSpace w = true.
Proof.
  unfold is_spaces. rewrite andb_true_iff. destruct w; simpl; intuition congruence.
Qed.

Lemma token_stops (t r : str) :
  is_token t = true -> stops isWhiteSpace (t ++ r) = true.
Proof.
  intro H. apply is_token_spec in H as [Hne H].
  destruct t as [|c t]; [congruence|]. simpl in *.
  apply andb_true_iff in H as [Hc _]. exact Hc.
Qed.

Lemma spaces_stops (w r : str) :
  is_spaces w = true -> stops notWhiteSpace (w ++ r) = true.
Proof.
  intro H. apply is_spaces_spec in H as [Hne H].
  destruct w as [|c w]; [congruence|]. simpl in *.
  apply andb_true_iff in H as [Hc _]. unfold notWhiteSpace. rewrite Hc. reflexivity.
Qed.

(** [command_spec] on a tail given by its first two tokens. *)
Lemma command_spec_tokens (A ws B rest : str) :
  is_token A = true -> is_spaces ws = true -> is_token B = true ->
  stops notWhiteSpace rest = true ->
  command_spec (A ++ ws ++ B ++ rest) =
    match quoted_title rest with
    | Some (T, more) =>
        Some (mkMatch 0
                (firstn (length (A ++ ws ++ B ++ rest) - length more)
                   (A ++ ws ++ B ++ rest))
                [(3, T); (2, B); (1, A)])
    | None => Some (mkMatch 0 (A ++ ws ++ B) [(2, B); (1, A)])
    end.
Proof.
  intros HA Hws HB Hrest. unfold command_spec.
  pose proof (spaces_stops ws (B ++ rest) Hws) as S1.
  pose proof (token_stops B rest HB) as S2.
  apply is_token_spec in HA as [NA FA]. apply is_spaces_spec in Hws as [Nw Fw].
  apply is_token_spec in HB as [NB FB].
  rewrite (takeWhile_app notWhiteSpace A (ws ++ B ++ rest) FA S1).
  rewrite (dropWhile_app notWhiteSpace A (ws ++ B ++ rest) FA S1).
  rewrite (takeWhile_app isWhiteSpace ws (B ++ rest) Fw S2).
  rewrite (dropWhile_app isWhiteSpace ws (B ++ rest) Fw S2).
  rewrite (takeWhile_app notWhiteSpace B rest FB Hrest).
  rewrite (dropWhile_app notWhiteSpace B rest FB Hrest).
  destruct A; [congruence|]. destruct ws; [congruence|]. destruct B; [congruence|].
  reflexivity.
Qed.

(** Every match of [command_spec] comes from two tokens. *)
Lemma command_spec_inv (tail : str) (parts : MatchResult) :
  command_spec tail = Some parts ->
  exists A ws B rest,
    tail = A ++ ws ++ B ++ rest /\
    is_token A = true /\ is_spaces ws = true /\ is_token B = true /\
    stops notWhiteSpace rest = true.
Proof.
  unfold command_spec. intro H.
  exists (takeWhile notWhiteSpace tail),
    (takeWhile isWhiteSpace (dropWhile notWhiteSpace tail)),
    (takeWhile notWhiteSpace
       (dropWhile isWhiteSpace (dropWhile notWhiteSpace tail))),
    (dropWhile notWhiteSpace
       (dropWhile isWhiteSpace (dropWhile notWhiteSpace tail))).
  rewrite !take_drop. split; [reflexivity|].
  rewrite !is_token_spec, is_spaces_spec, !takeWhile_all, dropWhile_stops.
  destruct (takeWhile notWhiteSpace tail); [discriminate|].
  destruct (takeWhile isWhiteSpace (dropWhile notWhiteSpace tail)); [discriminate|].
  destruct (takeWhile notWhiteSpace
              (dropWhile isWhiteSpace (dropWhile notWhiteSpace tail)));
    [discriminate|].
  repeat split; discriminate.
Qed.

(** ** [indexOf] *)

Lemma startsWith_app (s r : str) : startsWith (s ++ r) s = true.
Proof. induction s as [|c s IH]; simpl; auto. rewrite ascii_eqb_refl. exact IH. Qed.

Lemma indexOf_from_here (s pat : str) (i : nat) :
  startsWith s pat = true -> indexOf_from s pat i = Z.of_nat i.
Proof. intro H. destruct s; simpl in *; rewrite H; reflexivity. Qed.

Lemma token_not_space (p w : ascii) :
  notWhiteSpace p = true -> isWhiteSpace w = true -> ascii_eqb p w = false.
Proof.
  intros Hp Hw. destruct (ascii_eqb p w) eqn:E; auto.
  apply ascii_eqb_eq in E. subst w. unfold notWhiteSpace in Hp.
  rewrite Hw in Hp. discriminate.
Qed.

(** A token that does not start [s] does not start [s] followed by white
    space either. *)
Lemma startsWith_app_false (s pat : str) (w : ascii) (x : str) :
  forallb notWhiteSpace pat = true -> isWhiteSpace w = true ->
  startsWith s pat = false -> startsWith (s ++ w :: x) pat = false.
Proof.
  intros Hpat Hw. revert pat Hpat.
  induction s as [|a s IH]; intros [|p pat] Hpat H; simpl in *; try discriminate.
  - apply andb_true_iff in Hpat as [Hp _].
    rewrite (token_not_space _ _ Hp Hw). reflexivity.
  - apply andb_true_iff in Hpat as [_ Hpat].
    destruct (ascii_eqb p a); simpl in *; auto.
Qed.

Lemma indexOf_from_neg (s pat : str) (i : nat) :
  indexOf_from s pat i = (-1)%Z ->
  startsWith s pat = false /\
  match s with [] => True | _ :: s' => indexOf_from s' pat (S i) = (-1)%Z end.
Proof.
  destruct s as [|c s]; simpl;
    destruct (startsWith _ pat); intro H; try lia; auto.
Qed.

Lemma indexOf_from_skip (A : str) (w : ascii) (x pat : str) (i : nat) :
  forallb notWhiteSpace pat = true -> isWhiteSpace w = true ->
  indexOf_from A pat i = (-1)%Z ->
  indexOf_from (A ++ w :: x) pat i = indexOf_from (w :: x) pat (i + length A).
Proof.
  intros Hpat Hw. revert i. induction A as [|a A IH]; intros i H.
  - simpl. rewrite Nat.add_0_r. reflexivity.
  - apply indexOf_from_neg in H as [H1 H2].
    cbn [app indexOf_from].
    change (a :: A ++ w :: x) with ((a :: A) ++ w :: x).
    rewrite (startsWith_app_false _ _ _ x Hpat Hw H1).
    rewrite (IH _ H2). cbn [indexOf_from length].
    replace (S i + length A) with (i + S (length A)) by lia. reflexivity.
Qed.

Lemma indexOf_from_spaces (ws y pat : str) (i : nat) :
  is_token pat = true -> forallb isWhiteSpace ws = true ->
  indexOf_from (ws ++ y) pat i = indexOf_from y pat (i + length ws).
Proof.
  intros Hpat. apply is_token_spec in Hpat as [Hne Hpat].
  destruct pat as [|p pat]; [congruence|]. simpl in Hpat.
  apply andb_true_iff in Hpat as [Hp _].
  revert i. induction ws as [|w ws IH]; intros i H.
  - simpl. rewrite Nat.add_0_r. reflexivity.
  - simpl in H. apply andb_true_iff in H as [Hw H].
    cbn [app indexOf_from startsWith]. rewrite (token_not_space _ _ Hp Hw).
    cbn [andb]. rewrite (IH _ H). cbn [length].
    replace (S i + length ws) with (i + S (length ws)) by lia. reflexivity.
Qed.

(** Where [indexOf] finds the second token in the matched text, when it
    does not occur inside the first. *)
Lemma indexOf_second_token (A ws B : str) :
  is_spaces ws = true -> is_token B = true ->
  indexOf A B = (-1)%Z ->
  indexOf (A ++ ws ++ B) B = Z.of_nat (length A + length ws).
Proof.
  intros Hws HB H. unfold indexOf in *.
  pose proof HB as HB'. apply is_token_spec in HB' as [NB FB].
  apply is_spaces_spec in Hws as [Nw Fw].
  destruct ws as [|w ws]; [congruence|].
  pose proof Fw as Fw'. simpl in Fw'. apply andb_true_iff in Fw' as [Hw _].
  cbn [app]. rewrite (indexOf_from_skip A w (ws ++ B) B 0 FB Hw H).
  change (w :: ws ++ B) with ((w :: ws) ++ B).
  rewrite (indexOf_from_spaces (w :: ws) B B _ HB Fw).
  rewrite indexOf_from_here.
  - f_equal.
  - rewrite <- (app_nil_r B) at 1. apply startsWith_app.
Qed.

Lemma skipn_app_exact (a b : str) : skipn (length a) (a ++ b) = b.
Proof. induction a; simpl; auto. Qed.

(** The title of the unquoted path, when the second token does not occur
    inside the first: the trailing text, trimmed. *)
Lemma prTitle_unquoted (A ws B rest : str) :
  is_spaces ws = true -> is_token B = true ->
  indexOf A B = (-1)%Z ->
  prTitle_of (A ++ ws ++ B ++ rest) (mkMatch 0 (A ++ ws ++ B) [(2, B); (1, A)])
  = trim rest.
Proof.
  intros Hws HB H. unfold prTitle_of. cbn [m_get m_caps get_cap Nat.eqb js_or].
  change (m_str (mkMatch 0 (A ++ ws ++ B) [(2, B); (1, A)]) 0) with (A ++ ws ++ B).
  change (m_str (mkMatch 0 (A ++ ws ++ B) [(2, B); (1, A)]) 2) with B.
  rewrite (indexOf_second_token A ws B Hws HB H).
  unfold substring. f_equal.
  replace (Z.to_nat (Z.max 0 (Z.of_nat (length A + length ws) + Z.of_nat (length B))))
    with (length ((A ++ ws) ++ B)) by (rewrite !length_app; lia).
  rewrite (app_assoc A ws), (app_assoc (A ++ ws) B).
  apply skipn_app_exact.
Qed.

(** ** Finding the mention *)

Lemma ci_prefix_refl ic (p x : str) : ci_prefix ic p (p ++ x) = true.
Proof.
  induction p as [|a p IH]; simpl; auto.
  rewrite N.eqb_refl. exact IH.
Qed.

Lemma ci_prefix_Forall2 (p s : str) :
  ci_prefix true p s = true <->
  exists mid post,
    s = mid ++ post /\
    Forall2 (fun a c => Canonicalize true a = Canonicalize true c) p mid.
Proof.
  revert s. induction p as [|a p IH]; intros s; simpl.
  - split; auto. intros _. exists [], s. split; auto.
  - destruct s as [|c s].
    + split; [discriminate|].
      intros [mid [post [E F]]]. inversion F; subst. discriminate.
    + rewrite andb_true_iff, N.eqb_eq, IH. split.
      * intros [Hc [mid [post [E F]]]]. exists (c :: mid), post.
        subst s. split; auto.
      * intros [mid [post [E F]]]. inversion F; subst.
        inversion E; subst. split; auto. eauto.
Qed.

Lemma find_ci_here ic (p s : str) (i : nat) :
  ci_prefix ic p s = true -> find_ci ic p s i = Some i.
Proof. intro H. destruct s; simpl in *; rewrite H; reflexivity. Qed.

Lemma find_ci_None ic (p s : str) (i : nat) :
  find_ci ic p s i = None ->
  forall pre post, s = pre ++ post -> ci_prefix ic p post = false.
Proof.
  revert i. induction s as [|c s IH]; intros i H pre post E.
  - symmetry in E. apply app_eq_nil in E as [-> ->].
    simpl in H. destruct (ci_prefix ic p []); [discriminate|reflexivity].
  - cbn [find_ci] in H. destruct (ci_prefix ic p (c :: s)) eqn:P; [discriminate|].
    destruct pre as [|d pre]; simpl in E.
    + subst post. exact P.
    + inversion E; subst. eapply IH; eauto.
Qed.

Lemma find_ci_Some ic (p s : str) (i j : nat) :
  find_ci ic p s i = Some j ->
  exists pre post,
    s = pre ++ post /\ j = i + length pre /\ ci_prefix ic p post = true.
Proof.
  revert i. induction s as [|c s IH]; intros i H.
  - simpl in H. destruct (ci_prefix ic p []) eqn:P; [|discriminate].
    inversion H; subst. exists [], []. simpl. auto.
  - cbn [find_ci] in H. destruct (ci_prefix ic p (c :: s)) eqn:P.
    + inversion H; subst. exists [], (c :: s). simpl. auto.
    + apply IH in H as [pre [post [E [J Q]]]].
      exists (c :: pre), post. subst. simpl. repeat split; auto; lia.
Qed.

(** The argument tail is the trimmed text after the first occurrence of
    the mention phrase. *)
(** A source free of syntax characters is read as the sequence of its
    characters. *)
Lemma syntax_character_false (c : ascii) :
  syntax_character c = false ->
  ascii_eqb c "." = false /\ ascii_eqb c "[" = false.
Proof.
  intro H. split.
  - destruct (ascii_eqb c ".") eqn:E; [|reflexivity].
    apply ascii_eqb_eq in E. subst c. discriminate H.
  - destruct (ascii_eqb c "[") eqn:E; [|reflexivity].
    apply ascii_eqb_eq in E. subst c. discriminate H.
Qed.

Lemma compile_literal (src : str) :
  literal_source src = true -> compile src = literal src.
Proof.
  unfold compile. induction src as [|c src IH]; [reflexivity|].
  cbn [literal_source forallb]. intro H.
  apply andb_true_iff in H as [H1 H2]. apply negb_true_iff in H1.
  destruct (syntax_character_false c H1) as [D B].
  cbn [compile_from literal]. rewrite D, B, (IH H2). reflexivity.
Qed.

Lemma mention_source_literal (appName : str) :
  literal_source appName = true ->
  literal_source (mention_source appName) = true.
Proof.
  intro H. unfold mention_source, literal_source in *.
  rewrite !forallb_app, H. reflexivity.
Qed.

Lemma leftmost_mention (appName S : str) :
  literal_source appName = true ->
  leftmost (mentionRegex appName) S
  = search true (literal (mention_source appName)) S 0.
Proof.
  intro H. unfold leftmost, mentionRegex, RegExp_new.
  cbn [re_source re_ignoreCase].
  rewrite (compile_literal _ (mention_source_literal _ H)). reflexivity.
Qed.

Lemma argument_tail_spec (appName body : str) :
  literal_source appName = true ->
  argument_tail appName body =
    match find_ci true (mention_source appName) body 0 with
    | Some j =>
        Some (trim (skipn (j + length (mention_source appName)) body))
    | None => None
    end.
Proof.
  intro L. unfold argument_tail. rewrite (leftmost_mention _ _ L).
  rewrite search_literal.
  destruct (find_ci true (mention_source appName) body 0) as [j|] eqn:F; auto.
  apply find_ci_Some in F as [pre [post [E [J Q]]]]. simpl in J. subst j body.
  unfold commandPart_of. cbn [m_index m_0]. rewrite Nat.sub_0_r.
  rewrite skipn_app_exact. apply ci_prefix_length in Q.
  rewrite length_firstn, Nat.min_l by exact Q.
  unfold substring. do 3 f_equal. lia.
Qed.

Lemma argument_tail_here (appName x : str) :
  literal_source appName = true ->
  argument_tail appName (mention_source appName ++ x) = Some (trim x).
Proof.
  intro L. rewrite (argument_tail_spec _ _ L).
  rewrite find_ci_here by apply ci_prefix_refl.
  rewrite Nat.add_0_l, skipn_app_exact. reflexivity.
Qed.

Lemma argument_tail_None (appName body : str) :
  literal_source appName = true ->
  ~ contains_ci (mention_source appName) body ->
  argument_tail appName body = None.
Proof.
  intros L H. rewrite (argument_tail_spec _ _ L).
  destruct (find_ci true (mention_source appName) body 0) as [j|] eqn:F; auto.
  exfalso. apply H.
  apply find_ci_Some in F as [pre [post [E [_ Q]]]].
  apply ci_prefix_Forall2 in Q as [mid [post' [E' F]]].
  exists pre, mid, post'. subst. auto.
Qed.


(** The default name is free of pattern syntax, so the mention pattern
    built from it is the literal phrase. *)
Lemma default_name_literal :
  appName_of_env None = lit "om-bot" /\
  appName_of_env (Some []) = lit "om-bot" /\
  literal_source (appName_of_env None) = true.
Proof. repeat split. Qed.

(** ** The handler acts on the outcome of [parse] *)

Lemma handler_dispatch World (octokit : Octokit World) (appName : str)
    (context : Context) :
  handler octokit appName context =
  dispatch octokit appName context (parse appName (comment_body context)).
Proof.
  unfold handler, parse, parsing_section, dispatch, execute.
  destruct (RegExp_test _ _) as [[|] R1]; auto.
  destruct (String_match (comment_body context) R1) as [[m|] R2]; auto.
  destruct (v_index m) as [index|]; auto.
  destruct (String_match _ commandRegex) as [[parts|] R3]; auto.
  cbn [fst].
  destruct (3 <=? v_length R3 parts); auto.
  destruct (negb _ || negb _ || negb _); auto.
Qed.

Lemma contains_ci_found (p s : str) :
  contains_ci p s -> find_ci true p s 0 <> None.
Proof.
  intros [pre [mid [post [E F]]]] N.
  pose proof (find_ci_None _ _ _ _ N pre (mid ++ post) E) as Q.
  assert (ci_prefix true p (mid ++ post) = true) as Q'
    by (apply ci_prefix_Forall2; eauto).
  congruence.
Qed.

Lemma not_contains_ci (p s : str) :
  find_ci true p s 0 = None -> ~ contains_ci p s.
Proof. intros N H. exact (contains_ci_found _ _ H N). Qed.

(** ** Outcomes by tokens *)

Lemma quoted_title_intro (ws T more : str) :
  is_spaces ws = true -> T <> [] -> forallb notQuote T = true ->
  quoted_title (ws ++ quote :: T ++ quote :: more) = Some (T, more).
Proof.
  intros Hws NT FT. apply is_spaces_spec in Hws as [Nw Fw].
  unfold quoted_title.
  rewrite (takeWhile_app isWhiteSpace ws _ Fw) by reflexivity.
  rewrite (dropWhile_app isWhiteSpace ws _ Fw) by reflexivity.
  destruct ws; [congruence|]. rewrite ascii_eqb_refl.
  rewrite (takeWhile_app notQuote T _ FT) by reflexivity.
  rewrite (dropWhile_app notQuote T _ FT) by reflexivity.
  destruct T; [congruence|]. reflexivity.
Qed.

Lemma quoted_title_nonempty (rest T more : str) :
  quoted_title rest = Some (T, more) -> T <> [].
Proof.
  unfold quoted_title.
  destruct (takeWhile isWhiteSpace rest); [discriminate|].
  destruct (dropWhile isWhiteSpace rest) as [|q r2]; [discriminate|].
  destruct (ascii_eqb quote q); [|discriminate].
  destruct (takeWhile notQuote r2); [discriminate|].
  destruct (dropWhile notQuote r2); [discriminate|].
  intro H. inversion H. discriminate.
Qed.

Lemma parse_tail_quoted (A ws B rest T more : str) :
  is_token A = true -> is_spaces ws = true -> is_token B = true ->
  stops notWhiteSpace rest = true ->
  quoted_title rest = Some (T, more) ->
  parse_tail (A ++ ws ++ B ++ rest) = Command (mkCommand A B T).
Proof.
  intros HA Hws HB Hrest HQ.
  rewrite parse_tail_spec by (apply token_stops; exact HA).
  rewrite command_spec_tokens, HQ by assumption.
  apply quoted_title_nonempty in HQ.
  unfold prTitle_of. cbn [m_get m_caps get_cap Nat.eqb js_or].
  destruct T; [congruence|]. reflexivity.
Qed.

Lemma parse_tail_unquoted (A ws B rest : str) :
  is_token A = true -> is_spaces ws = true -> is_token B = true ->
  stops notWhiteSpace rest = true ->
  quoted_title rest = None ->
  parse_tail (A ++ ws ++ B ++ rest) =
    let prTitle :=
      prTitle_of (A ++ ws ++ B ++ rest)
        (mkMatch 0 (A ++ ws ++ B) [(2, B); (1, A)]) in
    if truthy prTitle then Command (mkCommand A B prTitle) else Malformed.
Proof.
  intros HA Hws HB Hrest HQ.
  rewrite parse_tail_spec by (apply token_stops; exact HA).
  rewrite command_spec_tokens, HQ by assumption. reflexivity.
Qed.

(** ** The title when the second token occurs inside the first *)

Lemma startsWith_app_true (s x pat : str) :
  startsWith s pat = true -> startsWith (s ++ x) pat = true.
Proof.
  revert s. induction pat as [|p pat IH]; intros [|c s] H; simpl in *;
    try discriminate; auto.
  apply andb_true_iff in H as [H1 H2]. rewrite H1, IH; auto.
Qed.

Lemma startsWith_length (s pat : str) :
  startsWith s pat = true -> length pat <= length s.
Proof.
  revert s. induction pat as [|p pat IH]; intros [|c s] H; simpl in *;
    try discriminate; try lia.
  apply andb_true_iff in H as [_ H]. apply IH in H. lia.
Qed.

Lemma indexOf_from_bound (A pat : str) (i j : nat) :
  indexOf_from A pat i = Z.of_nat j ->
  i <= j /\ (j - i) + length pat <= length A.
Proof.
  revert i. induction A as [|a A IH]; intros i H.
  - simpl in H. destruct (startsWith [] pat) eqn:S; [|lia].
    apply startsWith_length in S. simpl in *. lia.
  - cbn [indexOf_from] in H. destruct (startsWith (a :: A) pat) eqn:S.
    + apply startsWith_length in S. simpl in *. lia.
    + apply IH in H. simpl. lia.
Qed.

Lemma indexOf_from_found (A : str) (w : ascii) (x pat : str) (i j : nat) :
  forallb notWhiteSpace pat = true -> isWhiteSpace w = true ->
  indexOf_from A pat i = Z.of_nat j ->
  indexOf_from (A ++ w :: x) pat i = Z.of_nat j.
Proof.
  intros Hpat Hw. revert i. induction A as [|a A IH]; intros i H.
  - simpl in H. destruct (startsWith [] pat) eqn:S; [|lia].
    destruct pat; [|discriminate S]. simpl. exact H.
  - cbn [indexOf_from] in H. cbn [app indexOf_from].
    change (a :: A ++ w :: x) with ((a :: A) ++ w :: x).
    destruct (startsWith (a :: A) pat) eqn:S.
    + rewrite (startsWith_app_true _ (w :: x) _ S). exact H.
    + rewrite (startsWith_app_false _ _ _ x Hpat Hw S). auto.
Qed.

Lemma trim_nil (x : str) : trim x = [] -> forallb isWhiteSpace x = true.
Proof.
  unfold trim. rewrite trimStart_dropWhile. intro H.
  destruct (trimEnd_prefix (dropWhile isWhiteSpace x)) as [w [E F]].
  rewrite H in E. simpl in E.
  rewrite <- (take_drop isWhiteSpace x), E, forallb_app, takeWhile_all, F.
  reflexivity.
Qed.

(** The slip of [parts[0].indexOf(parts[2])]: when the second token occurs
    inside the first, at [j], the unquoted title starts right after that
    occurrence, so it holds the rest of the first token, the separator and
    the second token itself. *)
Lemma title_after_earlier_occurrence (A ws B rest : str) (j : nat) :
  is_token A = true -> is_spaces ws = true -> is_token B = true ->
  stops notWhiteSpace rest = true ->
  quoted_title rest = None ->
  indexOf A B = Z.of_nat j ->
  parse_tail (A ++ ws ++ B ++ rest) =
    Command (mkCommand A B
               (trim (skipn (j + length B) A ++ ws ++ B ++ rest))).
Proof.
  intros HA Hws HB Hrest HQ Hj.
  rewrite parse_tail_unquoted by assumption. cbv zeta.
  unfold prTitle_of. cbn [m_get m_caps get_cap Nat.eqb js_or].
  change (m_str (mkMatch 0 (A ++ ws ++ B) [(2, B); (1, A)]) 0)
    with (A ++ ws ++ B).
  change (m_str (mkMatch 0 (A ++ ws ++ B) [(2, B); (1, A)]) 2) with B.
  pose proof HB as HB'. apply is_token_spec in HB' as [NB FB].
  pose proof Hws as Hws'. apply is_spaces_spec in Hws' as [Nw Fw].
  destruct ws as [|w ws]; [congruence|].
  pose proof Fw as Fw'. simpl in Fw'. apply andb_true_iff in Fw' as [Hw _].
  unfold indexOf in *.
  cbn [app]. rewrite (indexOf_from_found A w (ws ++ B) B 0 j FB Hw Hj).
  apply indexOf_from_bound in Hj as [_ Hb].
  unfold substring.
  replace (Z.to_nat (Z.max 0 (Z.of_nat j + Z.of_nat (length B))))
    with (j + length B) by lia.
  change (A ++ w :: ws ++ B ++ rest) with (A ++ (w :: ws) ++ B ++ rest).
  rewrite skipn_app.
  replace (j + length B - length A) with 0 by lia. cbn [skipn app].
  match goal with
  | |- (if truthy ?t then _ else _) = _ =>
      destruct t as [|t0 T] eqn:E; [|reflexivity]
  end.
  exfalso. apply trim_nil in E. rewrite forallb_forall in E.
  destruct B as [|b B]; [congruence|].
  assert (Wb : isWhiteSpace b = true).
  { apply E. apply in_or_app. right. right. apply in_or_app. right.
    left. reflexivity. }
  simpl in FB. apply andb_true_iff in FB as [Fb _].
  apply notWhiteSpace_true in Fb. congruence.
Qed.


(** ** Counting tokens *)

Lemma split_ws_nonempty (s : str) : split_ws s <> [].
Proof.
  induction s as [|c s IH]; simpl; [discriminate|].
  destruct (isWhiteSpace c); [discriminate|].
  destruct (split_ws s); discriminate.
Qed.

Lemma split_ws_token (A r : str) :
  forallb notWhiteSpace A = true ->
  exists w l, split_ws r = w :: l /\ split_ws (A ++ r) = (A ++ w) :: l.
Proof.
  induction A as [|a A IH]; intro H.
  - pose proof (split_ws_nonempty r) as N.
    destruct (split_ws r) as [|w l] eqn:E; [congruence|].
    exists w, l. simpl. auto.
  - simpl in H. apply andb_true_iff in H as [Ha H].
    destruct (IH H) as [w [l [E1 E2]]]. exists w, l. split; auto.
    cbn [app split_ws]. apply notWhiteSpace_true in Ha. rewrite Ha, E2.
    reflexivity.
Qed.

Lemma tokens_spaces (ws x : str) :
  forallb isWhiteSpace ws = true -> tokens (ws ++ x) = tokens x.
Proof.
  induction ws as [|c ws IH]; intro H; auto.
  simpl in H. apply andb_true_iff in H as [Hc H].
  unfold tokens in *. cbn [app split_ws]. rewrite Hc. cbn [filter truthy].
  auto.
Qed.




Lemma trace_createComment World (octokit : Octokit World)
    (owner repo : str) (number : Z) (body : str) (w : World) :
  trace (createComment octokit owner repo number body) w =
    [CreateComment owner repo number body].
Proof.
  unfold trace, run, createComment, call. cbn [fst snd].
  destruct (issues_createComment octokit owner repo number body w). reflexivity.
Qed.

Lemma is_token_trim (t : str) : is_token t = true -> trim t = t.
Proof.
  intro H. pose proof (token_stops t [] H) as S. rewrite app_nil_r in S.
  apply is_token_spec in H as [N F].
  unfold trim. rewrite trimStart_dropWhile, (stops_dropWhile _ _ S).
  destruct (exists_last N) as [t' [d E]]. subst t.
  apply trimEnd_fixed.
  rewrite forallb_app in F. apply andb_true_iff in F as [_ F].
  simpl in F. rewrite andb_true_r in F. apply notWhiteSpace_true. exact F.
Qed.

(** ** Counting the at signs *)

Lemma ci_at (a c : ascii) :
  Canonicalize true a = Canonicalize true c ->
  ascii_eqb "@" a = ascii_eqb "@" c.
Proof.
  intro H. destruct (ascii_eqb "@" a) eqn:Ea.
  - apply ascii_eqb_eq in Ea. subst a. apply Canonicalize_at in H. subst c.
    reflexivity.
  - destruct (ascii_eqb "@" c) eqn:Ec; auto.
    apply ascii_eqb_eq in Ec. subst c. symmetry in H.
    apply Canonicalize_at in H. subst a. discriminate Ea.
Qed.


Lemma ci_prefix_cons ic (a c : ascii) (p s : str) :
  ci_prefix ic (a :: p) (c :: s) = true ->
  Canonicalize ic a = Canonicalize ic c /\ ci_prefix ic p s = true.
Proof.
  cbn [ci_prefix charset_match]. intro H.
  apply andb_true_iff in H as [H1 H2]. apply N.eqb_eq in H1. auto.
Qed.





(** ** The executor *)

Lemma errorMessage_spec (error : RequestError) :
  errorMessage_of error =
    lit "Failed to create pull request. Error: " ++ err_message error
    ++ lit "." ++ classification_suffix (err_status error).
Proof.
  unfold errorMessage_of, status_is, classification_suffix.
  destruct (err_status error) as [z|].
  - destruct (Z.eqb_spec z 422) as [->|N1].
    + cbn [Z.eqb Pos.eqb]. rewrite <- !app_assoc. reflexivity.
    + destruct (Z.eqb_spec z 404) as [->|N2].
      * rewrite <- !app_assoc. reflexivity.
      * rewrite app_nil_r. reflexivity.
  - rewrite app_nil_r. reflexivity.
Qed.

Section Executor.
Variables (World : Type) (octokit : Octokit World).
Variables (appName : str) (context : Context).
Variables (source target prTitle : str).

Local Abbreviation owner := (repo_owner context).
Local Abbreviation repo := (repo_repo context).
Local Abbreviation number := (issue_number context).

Lemma execute_lookup_fails (w w1 : World) (error : RequestError) :
  repos_getBranch octokit owner repo source w = (Throw error, w1) ->
  trace (execute octokit appName context source target prTitle) w =
    [GetBranch owner repo source;
     CreateComment owner repo number (errorMessage_of error)].
Proof.
  intro H. unfold trace, run, execute, try_catch, bind, getBranch, call.
  cbn [fst snd]. rewrite H. unfold createComment, call. cbn [fst snd].
  destruct (issues_createComment octokit owner repo number
              (errorMessage_of error) w1). reflexivity.
Qed.

Lemma execute_creation_fails (w w1 w2 : World) (error : RequestError) :
  repos_getBranch octokit owner repo source w = (Ok tt, w1) ->
  pulls_create octokit owner repo prTitle source target
    (pr_body (comment_user_login context) appName) w1 = (Throw error, w2) ->
  trace (execute octokit appName context source target prTitle) w =
    [GetBranch owner repo source;
     PullsCreate owner repo prTitle source target
       (pr_body (comment_user_login context) appName);
     CreateComment owner repo number (errorMessage_of error)].
Proof.
  intros H1 H2.
  unfold trace, run, execute, try_catch, bind, getBranch, create, call.
  cbn [fst snd]. rewrite H1. cbn [fst snd]. rewrite H2.
  unfold createComment, call. cbn [fst snd].
  destruct (issues_createComment octokit owner repo number
              (errorMessage_of error) w2). reflexivity.
Qed.

Lemma execute_succeeds (w w1 w2 w3 : World) (html_url : str) :
  repos_getBranch octokit owner repo source w = (Ok tt, w1) ->
  pulls_create octokit owner repo prTitle source target
    (pr_body (comment_user_login context) appName) w1 = (Ok html_url, w2) ->
  issues_createComment octokit owner repo number (success_text html_url) w2
    = (Ok tt, w3) ->
  run (execute octokit appName context source target prTitle) w =
    (Ok tt,
     (w3,
      [GetBranch owner repo source;
       PullsCreate owner repo prTitle source target
         (pr_body (comment_user_login context) appName);
       CreateComment owner repo number (success_text html_url)])).
Proof.
  intros H1 H2 H3.
  unfold run, execute, try_catch, bind, getBranch, create, createComment, call.
  cbn [fst snd]. rewrite H1. cbn [fst snd]. rewrite H2. cbn [fst snd].
  rewrite H3. reflexivity.
Qed.
End Executor.

(** ** Calls, trimming, tokens and the simulated handler *)

Ltac run_calls :=
  unfold trace, run, calls_of, result_of, execute, try_catch, bind, ret,
    getBranch, create, createComment, call;
  cbn [fst snd];
  repeat match goal with
    | |- context [repos_getBranch ?o ?a ?b ?c ?w] =>
        let e := fresh "e" in let w1 := fresh "w" in let E := fresh "E" in
        destruct (repos_getBranch o a b c w) as [[[]|e] w1] eqn:E;
        cbn [fst snd]
    | |- context [pulls_create ?o ?a ?b ?c ?d ?f ?g ?w] =>
        let u := fresh "url" in let e := fresh "e" in
        let w1 := fresh "w" in let E := fresh "E" in
        destruct (pulls_create o a b c d f g w) as [[u|e] w1] eqn:E;
        cbn [fst snd]
    | |- context [issues_createComment ?o ?a ?b ?c ?d ?w] =>
        let e := fresh "e" in let w1 := fresh "w" in let E := fresh "E" in
        destruct (issues_createComment o a b c d w) as [[[]|e] w1] eqn:E;
        cbn [fst snd]
    end.

Lemma at_count_cons (c : ascii) (s : str) :
  at_count (c :: s) = 0 -> ascii_eqb "@" c = false /\ at_count s = 0.
Proof.
  unfold at_count. cbn [filter].
  destruct (ascii_eqb "@" c); [discriminate|]. auto.
Qed.

Lemma find_ci_first (p s pre : str) (i : nat) :
  at_count pre = 0 ->
  ci_prefix true ("@"%char :: p) s = true ->
  find_ci true ("@"%char :: p) (pre ++ s) i = Some (i + length pre).
Proof.
  revert i. induction pre as [|c pre IH]; intros i Z H; cbn [app length].
  - rewrite Nat.add_0_r. apply find_ci_here. exact H.
  - apply at_count_cons in Z as [E Z]. cbn [find_ci].
    destruct (ci_prefix true ("@"%char :: p) (c :: pre ++ s)) eqn:Q.
    + apply ci_prefix_cons in Q as [Q _]. apply ci_at in Q.
      rewrite ascii_eqb_refl, E in Q. discriminate Q.
    + rewrite IH by assumption. f_equal. lia.
Qed.

Lemma dropWhile_app_stops (f : ascii -> bool) (a b : str) :
  stops f b = true -> dropWhile f (a ++ b) = dropWhile f a ++ b.
Proof.
  intro H. induction a as [|c a IH]; cbn [app dropWhile].
  - apply stops_dropWhile. exact H.
  - destruct (f c); [exact IH | reflexivity].
Qed.

Lemma trimEnd_app_keep (y : str) (d : ascii) (m : str) :
  isWhiteSpace d = false -> trimEnd (y ++ d :: m) = y ++ d :: trimEnd m.
Proof.
  intro H. unfold trimEnd. rewrite rev_app_distr. cbn [rev].
  rewrite <- app_assoc. cbn [app]. rewrite !trimStart_dropWhile.
  rewrite dropWhile_app_stops by (cbn [stops]; rewrite H; reflexivity).
  rewrite rev_app_distr. cbn [rev]. rewrite rev_involutive, <- app_assoc.
  reflexivity.
Qed.

Lemma quote_not_white : isWhiteSpace quote = false.
Proof. reflexivity. Qed.

Lemma notQuote_free (T : str) :
  ~ In "034"%char T -> forallb notQuote T = true.
Proof.
  intro H. apply forallb_forall. intros c I. unfold notQuote.
  destruct (ascii_eqb quote c) eqn:E; [|reflexivity].
  apply ascii_eqb_eq in E. subst c. contradiction.
Qed.

Lemma trim_arguments (sep A r : str) :
  forallb isWhiteSpace sep = true -> is_token A = true ->
  trim (sep ++ A ++ r) = trimEnd (A ++ r).
Proof.
  intros S HA. unfold trim. rewrite trimStart_dropWhile.
  rewrite dropWhile_app by auto using token_stops. reflexivity.
Qed.

Lemma quoted_title_open (ws T : str) :
  is_spaces ws = true ->
  forallb notQuote T = true \/ (exists T', T = quote :: T') ->
  quoted_title (ws ++ quote :: T) = None.
Proof.
  intros H Q. apply is_spaces_spec in H as [N F].
  unfold quoted_title.
  rewrite takeWhile_app, dropWhile_app
    by (auto; cbn [stops]; rewrite quote_not_white; reflexivity).
  destruct ws as [|c ws]; [congruence|].
  rewrite ascii_eqb_refl.
  destruct Q as [Q | [T' ->]].
  - replace (dropWhile notQuote T) with (@nil ascii).
    + destruct (takeWhile notQuote T); reflexivity.
    + symmetry. rewrite <- (app_nil_r T) at 1.
      apply dropWhile_app; auto.
  - cbn [takeWhile]. unfold notQuote at 1. rewrite ascii_eqb_refl.
    reflexivity.
Qed.



Lemma tokens_token (A r : str) :
  is_token A = true -> stops notWhiteSpace r = true ->
  tokens (A ++ r) = A :: tokens r.
Proof.
  intros HA Hr. apply is_token_spec in HA as [N F].
  destruct (split_ws_token A r F) as [w [l [E1 E2]]].
  unfold tokens. rewrite E2.
  destruct r as [|d r].
  - cbn [split_ws] in E1. injection E1 as <- <-.
    rewrite app_nil_r. cbn [filter].
    destruct A; [congruence|]. reflexivity.
  - cbn [stops] in Hr. apply negb_true_iff, notWhiteSpace_false in Hr.
    cbn [split_ws] in *. rewrite Hr in *. injection E1 as <- <-.
    rewrite app_nil_r. cbn [filter].
    destruct A; [congruence|]. reflexivity.
Qed.

Lemma tokens_of_command (A ws B rest : str) :
  is_token A = true -> is_spaces ws = true -> is_token B = true ->
  stops notWhiteSpace rest = true ->
  tokens (A ++ ws ++ B ++ rest) = A :: B :: tokens rest.
Proof.
  intros HA Hws HB Hr.
  rewrite tokens_token by auto using spaces_stops.
  apply is_spaces_spec in Hws as [_ Hws].
  rewrite tokens_spaces by assumption.
  rewrite tokens_token by assumption. reflexivity.
Qed.







(** The simulated handler, case by case. *)
Lemma simulate_unfold World (octokit : Octokit World)
    (APP_NAME : option str) (body : str) :
  simulateCommandParsing octokit APP_NAME body =
    match argument_tail (appName_of_env APP_NAME) body with
    | Some tail =>
        match leftmost commandRegex tail with
        | Some parts =>
            try_catch
              (bind (getBranch octokit (lit "test-owner") (lit "test-repo")
                       (m_str parts 1))
                 (fun _ =>
                    bind (create octokit (lit "test-owner") (lit "test-repo")
                            (prTitle_of tail parts) (m_str parts 1)
                            (m_str parts 2)
                            (pr_body (lit "test-user")
                               (appName_of_env APP_NAME)))
                      (fun _ =>
                         bind (createComment octokit (lit "test-owner")
                                 (lit "test-repo") 123 (success_text pull_1))
                           (fun _ => ret (SimSuccess pull_1)))))
              (fun error =>
                 bind (createComment octokit (lit "test-owner")
                         (lit "test-repo") 123 (errorMessage_of error))
                   (fun _ => ret (SimFailure (errorMessage_of error))))
        | None =>
            bind (createComment octokit (lit "test-owner") (lit "test-repo")
                    123 (usage_text (appName_of_env APP_NAME)))
              (fun _ => ret (SimFailure (lit "Invalid command format")))
        end
    | None => ret (SimFailure (lit "Mention not found or command malformed"))
    end.
Proof.
  unfold simulateCommandParsing, argument_tail.
  rewrite test_stateless by reflexivity.
  destruct (leftmost (mentionRegex (appName_of_env APP_NAME)) body)
    as [m|] eqn:E; [|reflexivity].
  rewrite match_stateless, E by reflexivity. cbn [v_index].
  change (trim (substring body
                  (Z.of_nat (m_index m)
                   + Z.of_nat (length (v_str (ExecArray m) 0)))))
    with (commandPart_of body m).
  rewrite match_stateless by reflexivity.
  destruct (leftmost commandRegex (commandPart_of body m)) as [parts|];
    reflexivity.
Qed.

Lemma command_parts (tail : str) (parts : MatchResult) :
  stops isWhiteSpace tail = true ->
  leftmost commandRegex tail = Some parts ->
  is_token (m_str parts 1) = true /\ is_token (m_str parts 2) = true.
Proof.
  intros St M. rewrite exec_command in M by assumption.
  destruct (command_spec_inv _ _ M)
    as [A [ws [B [rest [E [HA [Hw [HB Hr]]]]]]]].
  subst tail. rewrite command_spec_tokens in M by assumption.
  destruct (quoted_title rest) as [[Tt more]|]; injection M as <-; auto.
Qed.

Lemma truthy_false (s : str) : truthy s = false -> s = [].
Proof. destruct s; [reflexivity | discriminate]. Qed.

Lemma falsy_false (x : option str) :
  falsy x = false -> exists s, x = Some s /\ s <> [] /\ js_or x [] = s.
Proof.
  destruct x as [[|c s]|]; try discriminate. intros _.
  exists (c :: s). repeat split. discriminate.
Qed.

Lemma js_or_default (x : option str) (d : str) :
  d <> [] -> js_or x d <> [].
Proof.
  intro D. destruct x as [[|c s]|]; cbn [js_or truthy]; auto. discriminate.
Qed.

(** * The claims *)

(** C6 fails on the code.  The mention name is spliced into the source of
    the pattern as it is (line 76), so a name that holds a pattern syntax
    character is not matched as text.  With the name [om.bot] the body
    [@omXbot create-pr a b c] does not hold the phrase
    [@om.bot create-pr] in any letter case, yet the dot of the name
    matches the [X]: the outcome is a command, and the handler looks the
    branch up, creates the pull request and posts the success comment. *)
Theorem dot_in_name_matches_other_text :
  covered_source (lit "@om.bot create-pr") = true /\
  ~ contains_ci (lit "@om.bot create-pr") (lit "@omXbot create-pr a b c") /\
  parse (lit "om.bot") (lit "@omXbot create-pr a b c")
  = Command (mkCommand (lit "a") (lit "b") (lit "c")) /\
  trace
    (handler (mockOctokit (Ok tt) (Ok pull_1)) (lit "om.bot")
       (mockContext (lit "@omXbot create-pr a b c"))) tt
  = [GetBranch (lit "test-owner") (lit "test-repo") (lit "a");
     PullsCreate (lit "test-owner") (lit "test-repo") (lit "c") (lit "a")
       (lit "b") (lit "Pull request created by @test-user via om.bot.");
     CreateComment (lit "test-owner") (lit "test-repo") 123
       (lit "Successfully created pull request: https://github.com/test-owner/test-repo/pull/1")].
Proof.
  split; [reflexivity|]. split.
  - apply not_contains_ci. vm_compute. reflexivity.
  - split; vm_compute; reflexivity.
Qed.

(** C7 fails on the code, by the same splice.  With the name
    [om-bot[bot]], the login of the bot account of an app, the brackets
    are read as a character class: the input
    [@om-bot[bot] create-pr A B "T"] is not matched, the outcome is
    [NotMentioned] and the handler does nothing, while
    [@om-bott create-pr A B "T"], which does not hold the name, is the
    command. *)
Theorem class_in_name_hides_the_phrase :
  covered_source (lit "@om-bot[bot] create-pr") = true /\
  parse (lit "om-bot[bot]")
    (lit "@om-bot[bot] create-pr A B " ++ ["034"%char] ++ lit "T"
     ++ ["034"%char])
  = NotMentioned /\
  run
    (handler (mockOctokit (Ok tt) (Ok pull_1)) (lit "om-bot[bot]")
       (mockContext
          (lit "@om-bot[bot] create-pr A B " ++ ["034"%char] ++ lit "T"
           ++ ["034"%char]))) tt
  = (Ok tt, (tt, [])) /\
  parse (lit "om-bot[bot]")
    (lit "@om-bott create-pr A B " ++ ["034"%char] ++ lit "T"
     ++ ["034"%char])
  = Command (mkCommand (lit "A") (lit "B") (lit "T")).
Proof. repeat split; vm_compute; reflexivity. Qed.

(** C1, as amended.  For an argument tail whose first two tokens are [A]
    and [B], followed by trailing text that is not empty, that does not
    open with a quoted title, and where [B] does not occur inside [A]:
    [parse] returns the command whose title is the trailing text after the
    second token, trimmed, verbatim.  In particular
    [@bot create-pr A B T1 T2] gives [A], [B], [T1 T2]. *)
Theorem unquoted_title_is_trailing_text (appName body A ws B rest : str) :
  literal_source appName = true ->
  argument_tail appName body = Some (A ++ ws ++ B ++ rest) ->
  is_token A = true -> is_spaces ws = true -> is_token B = true ->
  stops notWhiteSpace rest = true ->
  quoted_title rest = None ->
  trim rest <> [] ->
  indexOf A B = (-1)%Z ->
  parse appName body = Command (mkCommand A B (trim rest)).
Proof.
  intros _ Htail HA Hws HB Hrest HQ Hne Hidx.
  rewrite parse_unfold, Htail.
  rewrite parse_tail_unquoted by assumption. cbv zeta.
  rewrite prTitle_unquoted by assumption.
  destruct (trim rest); [congruence|]. reflexivity.
Qed.

Lemma unquoted_title_is_trailing_text_witness :
  parse (lit "bot") (lit "@bot create-pr A B T1 T2")
  = Command (mkCommand (lit "A") (lit "B") (lit "T1 T2")).
Proof.
  apply (unquoted_title_is_trailing_text (lit "bot")
           (lit "@bot create-pr A B T1 T2")
           (lit "A") (lit " ") (lit "B") (lit " T1 T2")).
  - reflexivity.
  - reflexivity.
  - reflexivity.
  - reflexivity.
  - reflexivity.
  - reflexivity.
  - reflexivity.
  - discriminate.
  - reflexivity.
Defined.

(** C1 as stated fails.  The tail [A B] has two tokens and an empty
    remainder, which is not wrapped in quotes; the outcome is [Malformed],
    not a command with the empty trailing text.  The tail [A B "T" x] has a
    remainder that opens with a quoted title without being wrapped in
    quotes; the title is [T], not the trailing text.  The tail [A A T] has
    the unquoted remainder [T]; the title is [A T]. *)
Lemma unquoted_title_counterexample :
  (argument_tail (lit "bot") (lit "@bot create-pr A B") = Some (lit "A B") /\
   tokens (lit "A B") = [lit "A"; lit "B"] /\
   parse (lit "bot") (lit "@bot create-pr A B") = Malformed /\
   parse (lit "bot") (lit "@bot create-pr A B")
   <> Command (mkCommand (lit "A") (lit "B") (trim []))) /\
  (parse (lit "bot")
     (lit "@bot create-pr A B " ++ [quote] ++ lit "T" ++ [quote] ++ lit " x")
   = Command (mkCommand (lit "A") (lit "B") (lit "T"))) /\
  (argument_tail (lit "bot") (lit "@bot create-pr A A T") = Some (lit "A A T") /\
   tokens (lit "A A T") = [lit "A"; lit "A"; lit "T"] /\
   parse (lit "bot") (lit "@bot create-pr A A T")
   = Command (mkCommand (lit "A") (lit "A") (lit "A T"))).
Proof.
  repeat split; try reflexivity.
  vm_compute. discriminate.
Qed.


(** C2.  When the branch lookup or the pull-request creation fails,
    exactly one comment is posted, and its text is
    [Failed to create pull request. Error: <message>.] followed by the
    suffix of the failure's status code: the not-found sentence for 404,
    the unprocessable sentence for 422, nothing for any other status. *)
Theorem failure_is_reported_once World (octokit : Octokit World)
    (appName : str) (context : Context) (c : ParsedCommand)
    (w w' : World) (error : RequestError) :
  literal_source appName = true ->
  parse appName (comment_body context) = Command c ->
  (repos_getBranch octokit (repo_owner context) (repo_repo context)
     (sourceBranch c) w = (Throw error, w')
   \/ exists w1,
        repos_getBranch octokit (repo_owner context) (repo_repo context)
          (sourceBranch c) w = (Ok tt, w1) /\
        pulls_create octokit (repo_owner context) (repo_repo context)
          (title c) (sourceBranch c) (targetBranch c)
          (pr_body (comment_user_login context) appName) w1
        = (Throw error, w')) ->
  comments (trace (handler octokit appName context) w) =
    [CreateComment (repo_owner context) (repo_repo context)
       (issue_number context)
       (lit "Failed to create pull request. Error: " ++ err_message error
        ++ lit "." ++ classification_suffix (err_status error))].
Proof.
  intros _ P H. rewrite handler_dispatch, P. cbn [dispatch].
  rewrite <- errorMessage_spec.
  destruct H as [H|[w1 [H1 H2]]].
  - rewrite execute_lookup_fails with (1 := H). reflexivity.
  - rewrite execute_creation_fails with (1 := H1) (2 := H2). reflexivity.
Qed.

(** The scenario of the specification: creation fails with status 422 and
    message [API Error]. *)
Lemma failure_is_reported_once_witness :
  comments
    (trace
       (handler (mockOctokit (Ok tt) (Throw apiError)) (lit "om-bot")
          (mockContext body_api_error))
       tt)
  = [CreateComment (lit "test-owner") (lit "test-repo") 123
       (lit "Failed to create pull request. Error: API Error. This could be due to non-existent branches, no differences between branches, or insufficient permissions.")].
Proof.
  apply (failure_is_reported_once unit
           (mockOctokit (Ok tt) (Throw apiError)) (lit "om-bot")
           (mockContext body_api_error)
           (mkCommand (lit "feature/valid-branch") (lit "main")
              (lit "Test API error"))
           tt tt apiError).
  - reflexivity.
  - reflexivity.
  - right. exists tt. split; reflexivity.
Defined.

(** C3.  When the branch lookup and the pull-request creation both
    succeed, the creation is requested with head [sourceBranch], base
    [targetBranch], title [command.title] and a body crediting the
    commenting actor, and exactly one comment is posted, with the text
    [Successfully created pull request: <url>] for the link the creation
    returned. *)
Theorem success_is_reported_once World (octokit : Octokit World)
    (appName : str) (context : Context) (c : ParsedCommand)
    (w w1 w2 w3 : World) (html_url : str) :
  literal_source appName = true ->
  parse appName (comment_body context) = Command c ->
  repos_getBranch octokit (repo_owner context) (repo_repo context)
    (sourceBranch c) w = (Ok tt, w1) ->
  pulls_create octokit (repo_owner context) (repo_repo context)
    (title c) (sourceBranch c) (targetBranch c)
    (pr_body (comment_user_login context) appName) w1 = (Ok html_url, w2) ->
  issues_createComment octokit (repo_owner context) (repo_repo context)
    (issue_number context) (success_text html_url) w2 = (Ok tt, w3) ->
  trace (handler octokit appName context) w =
    [GetBranch (repo_owner context) (repo_repo context) (sourceBranch c);
     PullsCreate (repo_owner context) (repo_repo context)
       (title c) (sourceBranch c) (targetBranch c)
       (lit "Pull request created by @" ++ comment_user_login context
        ++ lit " via " ++ appName ++ lit ".");
     CreateComment (repo_owner context) (repo_repo context)
       (issue_number context)
       (lit "Successfully created pull request: " ++ html_url)].
Proof.
  intros _ P H1 H2 H3. rewrite handler_dispatch, P. cbn [dispatch].
  unfold trace.
  rewrite execute_succeeds with (1 := H1) (2 := H2) (3 := H3). reflexivity.
Qed.

(** The scenario of the specification: both calls succeed with the link
    [https://github.com/test-owner/test-repo/pull/1]. *)
Lemma success_is_reported_once_witness :
  trace
    (handler (mockOctokit (Ok tt) (Ok pull_1)) (lit "om-bot")
       (mockContext body_valid))
    tt
  = [GetBranch (lit "test-owner") (lit "test-repo") (lit "feature/new-branch");
     PullsCreate (lit "test-owner") (lit "test-repo")
       (lit "Add awesome feature") (lit "feature/new-branch") (lit "main")
       (lit "Pull request created by @test-user via om-bot.");
     CreateComment (lit "test-owner") (lit "test-repo") 123
       (lit "Successfully created pull request: https://github.com/test-owner/test-repo/pull/1")].
Proof.
  apply (success_is_reported_once unit
           (mockOctokit (Ok tt) (Ok pull_1)) (lit "om-bot")
           (mockContext body_valid)
           (mkCommand (lit "feature/new-branch") (lit "main")
              (lit "Add awesome feature"))
           tt tt tt tt pull_1).
  - reflexivity.
  - reflexivity.
  - reflexivity.
  - reflexivity.
  - reflexivity.
Defined.

(** C4.  When the branch lookup for [sourceBranch] fails, the
    pull-request creation is never attempted: the handler goes from the
    lookup to the comment that reports the failure. *)
Theorem lookup_failure_skips_creation World (octokit : Octokit World)
    (appName : str) (context : Context) (c : ParsedCommand)
    (w w1 : World) (error : RequestError) :
  literal_source appName = true ->
  parse appName (comment_body context) = Command c ->
  repos_getBranch octokit (repo_owner context) (repo_repo context)
    (sourceBranch c) w = (Throw error, w1) ->
  trace (handler octokit appName context) w =
    [GetBranch (repo_owner context) (repo_repo context) (sourceBranch c);
     CreateComment (repo_owner context) (repo_repo context)
       (issue_number context) (errorMessage_of error)] /\
  creations (trace (handler octokit appName context) w) = [].
Proof.
  intros _ P H. rewrite handler_dispatch, P. cbn [dispatch].
  rewrite execute_lookup_fails with (1 := H). split; reflexivity.
Qed.

(** The scenario of the specification: the lookup fails with status 404
    and message [Branch not found]. *)
Lemma lookup_failure_skips_creation_witness :
  trace
    (handler (mockOctokit (Throw branchNotFoundError) (Ok pull_1))
       (lit "om-bot") (mockContext body_lookup_failure)) tt
  = [GetBranch (lit "test-owner") (lit "test-repo") (lit "non-existent-branch");
     CreateComment (lit "test-owner") (lit "test-repo") 123
       (lit "Failed to create pull request. Error: Branch not found. One or more branches were not found.")]
  /\
  creations
    (trace
       (handler (mockOctokit (Throw branchNotFoundError) (Ok pull_1))
          (lit "om-bot") (mockContext body_lookup_failure)) tt)
  = [].
Proof.
  apply (lookup_failure_skips_creation unit
           (mockOctokit (Throw branchNotFoundError) (Ok pull_1))
           (lit "om-bot") (mockContext body_lookup_failure)
           (mkCommand (lit "non-existent-branch") (lit "main")
              (lit "Test failure"))
           tt tt branchNotFoundError).
  - reflexivity.
  - reflexivity.
  - reflexivity.
Defined.




(** C8, as amended.  Every command that [parse] produces has a source
    branch and a target branch that are tokens (not empty after trimming)
    and a title that is not empty; the title is not empty after trimming
    unless it is a quoted title, which is taken as it stands; and when the
    target branch does not occur inside the source branch, an unquoted
    title is the trimmed text that follows the two consumed tokens. *)
Theorem command_fields_invariant (appName body : str) (c : ParsedCommand) :
  literal_source appName = true ->
  parse appName body = Command c ->
  (is_token (sourceBranch c) = true /\ trim (sourceBranch c) <> []) /\
  (is_token (targetBranch c) = true /\ trim (targetBranch c) <> []) /\
  title c <> [] /\
  exists tail ws rest,
    argument_tail appName body = Some tail /\
    tail = sourceBranch c ++ ws ++ targetBranch c ++ rest /\
    is_spaces ws = true /\
    match quoted_title rest with
    | Some (T, _) => title c = T
    | None =>
        trim (title c) <> [] /\
        (indexOf (sourceBranch c) (targetBranch c) = (-1)%Z ->
         title c = trim rest)
    end.
Proof.
  intros _ P. rewrite parse_unfold in P.
  destruct (argument_tail appName body) as [tail|] eqn:Ht; [|discriminate].
  pose proof (argument_tail_trimmed _ _ _ Ht) as Hs.
  rewrite (parse_tail_spec _ Hs) in P.
  destruct (command_spec tail) as [parts|] eqn:Hc; [|discriminate].
  destruct (command_spec_inv _ _ Hc)
    as [A [ws [B [rest [E [HA [Hws [HB Hrest]]]]]]]].
  subst tail. rewrite (command_spec_tokens A ws B rest HA Hws HB Hrest) in Hc.
  assert (TA : trim A <> []).
  { rewrite (is_token_trim _ HA). apply is_token_spec in HA. tauto. }
  assert (TB : trim B <> []).
  { rewrite (is_token_trim _ HB). apply is_token_spec in HB. tauto. }
  destruct (quoted_title rest) as [[T more]|] eqn:HQ.
  - injection Hc as Hc. subst parts.
    pose proof (quoted_title_nonempty _ _ _ HQ) as NT.
    unfold prTitle_of in P.
    cbn [m_str m_get m_caps get_cap Nat.eqb js_or] in P.
    destruct T as [|t T]; [congruence|]. cbn [truthy] in P.
    assert (c = mkCommand A B (t :: T)) as -> by congruence.
    cbn [sourceBranch targetBranch title].
    repeat split; auto; try discriminate.
    exists (A ++ ws ++ B ++ rest), ws, rest. rewrite HQ. auto.
  - injection Hc as Hc. subst parts.
    match type of P with
    | (if ?b then _ else _) = _ => destruct b eqn:TT; [|discriminate P]
    end.
    cbn [m_str m_get m_caps get_cap Nat.eqb] in P.
    injection P as P. subst c.
    cbn [sourceBranch targetBranch title].
    match type of TT with
    | truthy ?t = true => assert (NT : t <> [])
    end.
    { intro Z. rewrite Z in TT. discriminate TT. }
    repeat split; auto.
    exists (A ++ ws ++ B ++ rest), ws, rest. rewrite HQ.
    repeat split; auto.
    + unfold prTitle_of in *. cbn [m_get m_caps get_cap Nat.eqb js_or] in *.
      rewrite trim_idem. exact NT.
    + intro I. apply prTitle_unquoted; auto.
Qed.

(** The last test of the repository:
    [@om-bot create-pr main develop My Feature Title]. *)
Lemma command_fields_invariant_witness :
  (is_token (lit "main") = true /\ trim (lit "main") <> []) /\
  (is_token (lit "develop") = true /\ trim (lit "develop") <> []) /\
  lit "My Feature Title" <> [] /\
  exists tail ws rest,
    argument_tail (lit "om-bot") body_unquoted = Some tail /\
    tail = lit "main" ++ ws ++ lit "develop" ++ rest /\
    is_spaces ws = true /\
    match quoted_title rest with
    | Some (T, _) => lit "My Feature Title" = T
    | None =>
        trim (lit "My Feature Title") <> [] /\
        (indexOf (lit "main") (lit "develop") = (-1)%Z ->
         lit "My Feature Title" = trim rest)
    end.
Proof.
  apply (command_fields_invariant (lit "om-bot") body_unquoted
           (mkCommand (lit "main") (lit "develop") (lit "My Feature Title"))).
  - reflexivity.
  - reflexivity.
Defined.

(** C8 as stated fails.  The command of [@om-bot create-pr A B " "] has a
    title that is empty after trimming.  The command of
    [@om-bot create-pr hotfix/main main] has the consumed target branch
    token as its title. *)
Lemma command_fields_counterexample :
  (parse (lit "om-bot") body_blank_title
   = Command (mkCommand (lit "A") (lit "B") (lit " ")) /\
   trim (lit " ") = []) /\
  (argument_tail (lit "om-bot") (lit "@om-bot create-pr hotfix/main main")
   = Some (lit "hotfix/main main") /\
   tokens (lit "hotfix/main main") = [lit "hotfix/main"; lit "main"] /\
   parse (lit "om-bot") (lit "@om-bot create-pr hotfix/main main")
   = Command (mkCommand (lit "hotfix/main") (lit "main") (lit "main"))).
Proof. repeat split. Qed.

(** C9.  Parsing is deterministic.  The parsing section works with two
    RegExp objects, the only state it could read or write between runs,
    and neither has the g or the y flag.  Whatever their [lastIndex]
    holds when the section starts, the outcome is [parse] of the mention
    name and the body, and both objects are left as they were; so a
    second run, on the objects the first run leaves, yields the same
    outcome and leaves the same objects. *)
Theorem parse_is_deterministic (appName body : str) (i j : nat) :
  literal_source appName = true ->
  parsing_section (set_lastIndex i (mentionRegex appName))
    (set_lastIndex j commandRegex) body
  = (parse appName body,
     (set_lastIndex i (mentionRegex appName), set_lastIndex j commandRegex))
  /\
  parsing_section
    (fst (snd (parsing_section (mentionRegex appName) commandRegex body)))
    (snd (snd (parsing_section (mentionRegex appName) commandRegex body)))
    body
  = parsing_section (mentionRegex appName) commandRegex body.
Proof.
  intros _. split.
  - rewrite parsing_section_spec, parse_unfold. reflexivity.
  - pose proof (parsing_section_spec appName body 0 0) as E.
    change (set_lastIndex 0 (mentionRegex appName))
      with (mentionRegex appName) in E.
    change (set_lastIndex 0 commandRegex) with commandRegex in E.
    rewrite E. cbn [fst snd]. exact E.
Qed.

(** The last test of the repository, on objects whose [lastIndex] is 5
    and 9. *)
Lemma parse_is_deterministic_witness :
  parsing_section (set_lastIndex 5 (mentionRegex (lit "om-bot")))
    (set_lastIndex 9 commandRegex)
    (lit "@om-bot create-pr main develop My Feature Title")
  = (parse (lit "om-bot")
       (lit "@om-bot create-pr main develop My Feature Title"),
     (set_lastIndex 5 (mentionRegex (lit "om-bot")),
      set_lastIndex 9 commandRegex))
  /\
  parsing_section
    (fst (snd (parsing_section (mentionRegex (lit "om-bot")) commandRegex
                 (lit "@om-bot create-pr main develop My Feature Title"))))
    (snd (snd (parsing_section (mentionRegex (lit "om-bot")) commandRegex
                 (lit "@om-bot create-pr main develop My Feature Title"))))
    (lit "@om-bot create-pr main develop My Feature Title")
  = parsing_section (mentionRegex (lit "om-bot")) commandRegex
      (lit "@om-bot create-pr main develop My Feature Title").
Proof.
  apply (parse_is_deterministic (lit "om-bot")
           (lit "@om-bot create-pr main develop My Feature Title") 5 9).
  reflexivity.
Defined.

(** What C9 rules out can be told in the model.  With the g flag on the
    mention pattern, [test] moves [lastIndex] to the end of the match, a
    second [test] of the same body on the same object fails, and the
    parsing section, which then gets an array without [index] from
    [match], ignores the command. *)
Lemma global_flag_remembers :
  fst (RegExp_test (RegExp_new (lit "@om-bot create-pr") (lit "gi"))
         (lit "@om-bot create-pr a b c")) = true /\
  re_lastIndex
    (snd (RegExp_test (RegExp_new (lit "@om-bot create-pr") (lit "gi"))
            (lit "@om-bot create-pr a b c"))) = 17 /\
  fst (RegExp_test
         (snd (RegExp_test (RegExp_new (lit "@om-bot create-pr") (lit "gi"))
                 (lit "@om-bot create-pr a b c")))
         (lit "@om-bot create-pr a b c")) = false /\
  fst (parsing_section (RegExp_new (lit "@om-bot create-pr") (lit "gi"))
         commandRegex (lit "@om-bot create-pr a b c")) = NotMentioned.
Proof. repeat split. Qed.




(** * Further properties *)

(** ** The calls of the handler *)

(** X1.  Whatever the comment, the client and the state of the service,
    the calls of one run of the handler are one of six sequences: none;
    the usage comment alone; for a command, the lookup of its source
    branch followed by a failure comment; lookup, creation and a failure
    comment; lookup, creation and the success comment; or lookup,
    creation, the success comment and a failure comment.  Every call is
    addressed to the repository of the event and every comment to its
    issue; there is at most one lookup, one creation and two comments,
    and no creation without a lookup of its head branch before it. *)
Theorem handler_call_sequences World (octokit : Octokit World)
    (appName : str) (context : Context) (w : World) :
  literal_source appName = true ->
  trace (handler octokit appName context) w = [] \/
  trace (handler octokit appName context) w
    = [comment_call context (usage_text appName)] \/
  exists c,
    parse appName (comment_body context) = Command c /\
    ((exists e,
        trace (handler octokit appName context) w
        = [lookup_call context c;
           comment_call context (errorMessage_of e)]) \/
     (exists e,
        trace (handler octokit appName context) w
        = [lookup_call context c; creation_call appName context c;
           comment_call context (errorMessage_of e)]) \/
     (exists html_url,
        trace (handler octokit appName context) w
        = [lookup_call context c; creation_call appName context c;
           comment_call context (success_text html_url)]) \/
     (exists html_url e,
        trace (handler octokit appName context) w
        = [lookup_call context c; creation_call appName context c;
           comment_call context (success_text html_url);
           comment_call context (errorMessage_of e)])).
Proof.
  intros _. rewrite handler_dispatch.
  destruct (parse appName (comment_body context)) as [| |c] eqn:P;
    cbn [dispatch].
  - left. reflexivity.
  - right. left. apply trace_createComment.
  - right. right. exists c. split; [reflexivity|].
    unfold lookup_call, creation_call, comment_call.
    run_calls.
    + right. right. left. exists url. reflexivity.
    + right. right. right. exists url, e. reflexivity.
    + right. right. right. exists url, e. reflexivity.
    + right. left. exists e. reflexivity.
    + right. left. exists e. reflexivity.
    + left. exists e. reflexivity.
    + left. exists e. reflexivity.
Qed.

(** The first test: the calls are lookup, creation and the success
    comment. *)
Lemma handler_call_sequences_witness :
  trace (handler (mockOctokit (Ok tt) (Ok pull_1)) (lit "om-bot")
           (mockContext body_valid)) tt = [] \/
  trace (handler (mockOctokit (Ok tt) (Ok pull_1)) (lit "om-bot")
           (mockContext body_valid)) tt
    = [comment_call (mockContext body_valid) (usage_text (lit "om-bot"))] \/
  exists c,
    parse (lit "om-bot") (comment_body (mockContext body_valid))
    = Command c /\
    ((exists e,
        trace (handler (mockOctokit (Ok tt) (Ok pull_1)) (lit "om-bot")
                 (mockContext body_valid)) tt
        = [lookup_call (mockContext body_valid) c;
           comment_call (mockContext body_valid) (errorMessage_of e)]) \/
     (exists e,
        trace (handler (mockOctokit (Ok tt) (Ok pull_1)) (lit "om-bot")
                 (mockContext body_valid)) tt
        = [lookup_call (mockContext body_valid) c;
           creation_call (lit "om-bot") (mockContext body_valid) c;
           comment_call (mockContext body_valid) (errorMessage_of e)]) \/
     (exists html_url,
        trace (handler (mockOctokit (Ok tt) (Ok pull_1)) (lit "om-bot")
                 (mockContext body_valid)) tt
        = [lookup_call (mockContext body_valid) c;
           creation_call (lit "om-bot") (mockContext body_valid) c;
           comment_call (mockContext body_valid) (success_text html_url)]) \/
     (exists html_url e,
        trace (handler (mockOctokit (Ok tt) (Ok pull_1)) (lit "om-bot")
                 (mockContext body_valid)) tt
        = [lookup_call (mockContext body_valid) c;
           creation_call (lit "om-bot") (mockContext body_valid) c;
           comment_call (mockContext body_valid) (success_text html_url);
           comment_call (mockContext body_valid) (errorMessage_of e)])).
Proof.
  apply (handler_call_sequences unit (mockOctokit (Ok tt) (Ok pull_1))
           (lit "om-bot") (mockContext body_valid) tt).
  reflexivity.
Defined.

(** X2.  When the lookup and the creation succeed and the success comment
    is rejected, the catch block of the handler takes that rejection for
    a failure of the creation: it posts a second comment, the failure
    text built from the error of the first, although the pull request
    exists.  The handler ends the way that second comment ends. *)
Theorem rejected_success_comment_is_reported_as_failure World
    (octokit : Octokit World) (appName : str) (context : Context)
    (c : ParsedCommand) (w w1 w2 w3 : World) (html_url : str)
    (e : RequestError) :
  literal_source appName = true ->
  parse appName (comment_body context) = Command c ->
  repos_getBranch octokit (repo_owner context) (repo_repo context)
    (sourceBranch c) w = (Ok tt, w1) ->
  pulls_create octokit (repo_owner context) (repo_repo context) (title c)
    (sourceBranch c) (targetBranch c)
    (pr_body (comment_user_login context) appName) w1 = (Ok html_url, w2) ->
  issues_createComment octokit (repo_owner context) (repo_repo context)
    (issue_number context) (success_text html_url) w2 = (Throw e, w3) ->
  run (handler octokit appName context) w
  = (fst (issues_createComment octokit (repo_owner context)
            (repo_repo context) (issue_number context) (errorMessage_of e)
            w3),
     (snd (issues_createComment octokit (repo_owner context)
             (repo_repo context) (issue_number context) (errorMessage_of e)
             w3),
      [lookup_call context c; creation_call appName context c;
       comment_call context (success_text html_url);
       comment_call context (errorMessage_of e)])).
Proof.
  intros _ P G C S. rewrite handler_dispatch, P. cbn [dispatch].
  unfold lookup_call, creation_call, comment_call, run, execute, try_catch,
    bind, getBranch, create, createComment, call.
  cbn [fst snd]. rewrite G. cbn [fst snd]. rewrite C. cbn [fst snd].
  rewrite S. cbn [fst snd].
  destruct (issues_createComment octokit (repo_owner context)
              (repo_repo context) (issue_number context) (errorMessage_of e)
              w3) as [r w4].
  reflexivity.
Qed.

(** The first test on a service that refuses every comment: the pull
    request is created, two comments are attempted, and the handler
    rejects with the error of the second. *)
Lemma rejected_success_comment_is_reported_as_failure_witness :
  run (handler (muteOctokit pull_1 forbiddenError) (lit "om-bot")
         (mockContext body_valid)) tt
  = (Throw forbiddenError,
     (tt,
      [lookup_call (mockContext body_valid) command_valid;
       creation_call (lit "om-bot") (mockContext body_valid) command_valid;
       comment_call (mockContext body_valid) (success_text pull_1);
       comment_call (mockContext body_valid)
         (errorMessage_of forbiddenError)])).
Proof.
  apply (rejected_success_comment_is_reported_as_failure unit
           (muteOctokit pull_1 forbiddenError) (lit "om-bot")
           (mockContext body_valid) command_valid tt tt tt tt pull_1
           forbiddenError).
  - reflexivity.
  - reflexivity.
  - reflexivity.
  - reflexivity.
  - reflexivity.
Defined.

(** X3.  With a mention name free of pattern syntax characters, the
    handler rejects only when the last call it issued is a comment that
    was rejected, and then with the error of that comment: a rejected
    lookup or creation never escapes the handler. *)
Theorem handler_rejects_only_on_comment World (octokit : Octokit World)
    (appName : str) (context : Context) (w : World) (e : RequestError)
    (st : World * list Call) :
  literal_source appName = true ->
  run (handler octokit appName context) w = (Throw e, st) ->
  exists t body w0,
    snd st = t ++ [comment_call context body] /\
    issues_createComment octokit (repo_owner context) (repo_repo context)
      (issue_number context) body w0 = (Throw e, fst st).
Proof.
  intros _. rewrite handler_dispatch.
  destruct (parse appName (comment_body context)) as [| |c] eqn:P;
    cbn [dispatch]; unfold comment_call.
  - unfold run, ret. discriminate.
  - run_calls; intro H; inversion H; subst; clear H.
    exists [], (usage_text appName), w. cbn [fst snd app]. auto.
  - run_calls; intro H; inversion H; subst; clear H; cbn [fst snd].
    + eexists [_; _; _], _, _. split; [reflexivity|]. eassumption.
    + eexists [_; _], _, _. split; [reflexivity|]. eassumption.
    + eexists [_], _, _. split; [reflexivity|]. eassumption.
Qed.

(** On the same service the usage comment of a malformed command is
    refused, and the handler rejects with that error. *)
Lemma handler_rejects_only_on_comment_witness :
  exists t body w0,
    [comment_call (mockContext body_missing_title)
       (usage_text (lit "om-bot"))]
    = t ++ [comment_call (mockContext body_missing_title) body] /\
    issues_createComment (muteOctokit pull_1 forbiddenError)
      (repo_owner (mockContext body_missing_title))
      (repo_repo (mockContext body_missing_title))
      (issue_number (mockContext body_missing_title)) body w0
    = (Throw forbiddenError, tt).
Proof.
  apply (handler_rejects_only_on_comment unit
           (muteOctokit pull_1 forbiddenError) (lit "om-bot")
           (mockContext body_missing_title) tt forbiddenError
           (tt,
            [comment_call (mockContext body_missing_title)
               (usage_text (lit "om-bot"))])).
  - reflexivity.
  - reflexivity.
Defined.

(** X4.  With a mention name free of pattern syntax characters, a
    comment that holds the phrase [@<name> create-pr] anywhere, in any
    letter case, is never ignored: the last call of the handler is a
    comment on the issue of the event. *)
Theorem mention_is_answered World (octokit : Octokit World)
    (appName : str) (context : Context) (w : World) :
  literal_source appName = true ->
  contains_ci (lit "@" ++ appName ++ lit " create-pr")
    (comment_body context) ->
  parse appName (comment_body context) <> NotMentioned /\
  exists t body,
    trace (handler octokit appName context) w
    = t ++ [comment_call context body].
Proof.
  intros L H.
  assert (P : parse appName (comment_body context) <> NotMentioned).
  { rewrite parse_unfold, (argument_tail_spec _ _ L).
    apply contains_ci_found in H.
    change (lit "@" ++ appName ++ lit " create-pr")
      with (mention_source appName) in H.
    destruct (find_ci true (mention_source appName) (comment_body context) 0);
      [|congruence].
    unfold parse_tail.
    destruct (leftmost commandRegex _); [|discriminate].
    destruct (_ || _); discriminate. }
  split; [exact P|]. rewrite handler_dispatch.
  destruct (parse appName (comment_body context)) as [| |c];
    [congruence| |]; cbn [dispatch]; unfold comment_call.
  - exists [], (usage_text appName). apply trace_createComment.
  - run_calls.
    + eexists [_; _], _. reflexivity.
    + eexists [_; _; _], _. reflexivity.
    + eexists [_; _; _], _. reflexivity.
    + eexists [_; _], _. reflexivity.
    + eexists [_; _], _. reflexivity.
    + eexists [_], _. reflexivity.
    + eexists [_], _. reflexivity.
Qed.

(** The phrase in capitals with nothing after it: the usage comment. *)
Lemma mention_is_answered_witness :
  parse (lit "om-bot") (comment_body (mockContext body_capitals))
  <> NotMentioned /\
  exists t body,
    trace (handler (mockOctokit (Ok tt) (Ok pull_1)) (lit "om-bot")
             (mockContext body_capitals)) tt
    = t ++ [comment_call (mockContext body_capitals) body].
Proof.
  apply (mention_is_answered unit (mockOctokit (Ok tt) (Ok pull_1))
           (lit "om-bot") (mockContext body_capitals) tt).
  - reflexivity.
  - exists (lit "please "), (lit "@OM-BOT CREATE-PR"), [].
    split; [reflexivity|]. repeat constructor.
Defined.

(** X15.  With a mention name free of pattern syntax characters, a
    comment body that does not hold the phrase [@<name> create-pr],
    compared without regard to letter case, is ignored: the outcome is
    [NotMentioned] and the handler returns without a comment and without
    any call to the REST client. *)
Theorem not_mentioned_is_silent World (octokit : Octokit World)
    (appName : str) (context : Context) (w : World) :
  literal_source appName = true ->
  ~ contains_ci (lit "@" ++ appName ++ lit " create-pr")
      (comment_body context) ->
  parse appName (comment_body context) = NotMentioned /\
  run (handler octokit appName context) w = (Ok tt, (w, [])).
Proof.
  intros L H.
  assert (P : parse appName (comment_body context) = NotMentioned)
    by (rewrite parse_unfold, (argument_tail_None _ _ L H); reflexivity).
  split; [exact P|]. rewrite handler_dispatch, P. reflexivity.
Qed.

(** The seventh test of the repository: [@om-bot hello there]. *)
Lemma not_mentioned_is_silent_witness :
  parse (lit "om-bot") (lit "@om-bot hello there") = NotMentioned /\
  run (handler (mockOctokit (Ok tt) (Ok (lit "url"))) (lit "om-bot")
         (mockContext (lit "@om-bot hello there"))) tt
  = (Ok tt, (tt, [])).
Proof.
  apply (@not_mentioned_is_silent unit (mockOctokit (Ok tt) (Ok (lit "url")))
           (lit "om-bot") (mockContext (lit "@om-bot hello there")) tt).
  - reflexivity.
  - apply not_contains_ci. vm_compute. reflexivity.
Defined.

(** ** Where the arguments start *)

(** X5.  With a mention name free of pattern syntax characters, the
    arguments of the command are what follows the first occurrence of the
    phrase, trimmed: the text before it is ignored, the phrase is found
    in any letter case, and a later occurrence of the phrase is part of
    the arguments. *)
Theorem first_mention_decides (appName pre mid post : str) :
  literal_source appName = true ->
  at_count pre = 0 ->
  Forall2 (fun a c => Canonicalize true a = Canonicalize true c)
    (lit "@" ++ appName ++ lit " create-pr") mid ->
  argument_tail appName (pre ++ mid ++ post) = Some (trim post) /\
  parse appName (pre ++ mid ++ post) = parse_tail (trim post).
Proof.
  intros L Z F.
  change (lit "@" ++ appName ++ lit " create-pr")
    with (mention_source appName) in F.
  assert (T : argument_tail appName (pre ++ mid ++ post) = Some (trim post)).
  { rewrite (argument_tail_spec _ _ L).
    change (mention_source appName)
      with ("@"%char :: appName ++ lit " create-pr") at 1.
    rewrite find_ci_first.
    - cbn [Nat.add]. rewrite (Forall2_length F), app_assoc.
      rewrite <- length_app, skipn_app_exact. reflexivity.
    - exact Z.
    - change ("@"%char :: appName ++ lit " create-pr")
        with (mention_source appName).
      apply ci_prefix_Forall2. exists mid, post. auto. }
  split; [exact T|]. rewrite parse_unfold, T. reflexivity.
Qed.

(** A mention in mixed case after a greeting; a second mention is part of
    the arguments. *)
Lemma first_mention_decides_witness :
  argument_tail (lit "om-bot")
    (lit "hey " ++ lit "@Om-Bot Create-PR" ++ lit " a b @om-bot create-pr ")
  = Some (trim (lit " a b @om-bot create-pr ")) /\
  parse (lit "om-bot")
    (lit "hey " ++ lit "@Om-Bot Create-PR" ++ lit " a b @om-bot create-pr ")
  = parse_tail (trim (lit " a b @om-bot create-pr ")).
Proof.
  apply (first_mention_decides (lit "om-bot") (lit "hey ")
           (lit "@Om-Bot Create-PR") (lit " a b @om-bot create-pr ")).
  - reflexivity.
  - reflexivity.
  - repeat constructor.
Defined.

(** ** Quoted titles *)

(** X6.  With a mention name free of pattern syntax characters: in a
    command with a quoted title the separators may be any runs of white
    space, the first branch may follow the command word directly, and
    whatever follows the closing quote is dropped: the title is the text
    between the first pair of quotes. *)
Theorem quoted_title_ends_the_command
    (appName sep A ws1 B ws2 T more : str) :
  literal_source appName = true ->
  forallb isWhiteSpace sep = true ->
  is_token A = true -> is_spaces ws1 = true ->
  is_token B = true -> is_spaces ws2 = true ->
  T <> [] -> ~ In "034"%char T ->
  parse appName
    (lit "@" ++ appName ++ lit " create-pr" ++ sep ++ A ++ ws1 ++ B ++ ws2
     ++ ["034"%char] ++ T ++ ["034"%char] ++ more)
  = Command (mkCommand A B T).
Proof.
  intros L S HA H1 HB H2 NT FT. apply notQuote_free in FT.
  change (lit "@" ++ appName ++ lit " create-pr" ++ sep ++ A ++ ws1 ++ B
          ++ ws2 ++ ["034"%char] ++ T ++ ["034"%char] ++ more)
    with (lit "@" ++ appName ++ lit " create-pr" ++ sep ++ A ++ ws1 ++ B
          ++ ws2 ++ [quote] ++ T ++ [quote] ++ more).
  replace (lit "@" ++ appName ++ lit " create-pr" ++ sep ++ A ++ ws1 ++ B
           ++ ws2 ++ [quote] ++ T ++ [quote] ++ more)
    with (mention_source appName ++ sep ++ A ++ ws1 ++ B ++ ws2 ++ [quote]
          ++ T ++ [quote] ++ more)
    by (unfold mention_source; rewrite <- !app_assoc; reflexivity).
  rewrite parse_unfold, (argument_tail_here _ _ L).
  rewrite trim_arguments by assumption.
  replace (A ++ ws1 ++ B ++ ws2 ++ [quote] ++ T ++ [quote] ++ more)
    with ((A ++ ws1 ++ B ++ ws2 ++ [quote] ++ T) ++ quote :: more)
    by (rewrite <- !app_assoc; reflexivity).
  rewrite trimEnd_app_keep by apply quote_not_white.
  rewrite <- !app_assoc.
  apply parse_tail_quoted with (more := trimEnd more); auto.
  - apply spaces_stops. exact H2.
  - apply (quoted_title_intro ws2 T (trimEnd more)); auto.
Qed.

(** The first branch glued to the command word, two spaces between the
    branches, and text after the closing quote. *)
Lemma quoted_title_ends_the_command_witness :
  parse (lit "om-bot")
    (lit "@" ++ lit "om-bot" ++ lit " create-pr" ++ [] ++ lit "dev"
     ++ lit "  " ++ lit "main" ++ lit " " ++ ["034"%char] ++ lit "Fix login"
     ++ ["034"%char] ++ lit " please review")
  = Command (mkCommand (lit "dev") (lit "main") (lit "Fix login")).
Proof.
  apply (quoted_title_ends_the_command (lit "om-bot") [] (lit "dev")
           (lit "  ") (lit "main") (lit " ") (lit "Fix login")
           (lit " please review")).
  - reflexivity.
  - reflexivity.
  - reflexivity.
  - reflexivity.
  - reflexivity.
  - reflexivity.
  - discriminate.
  - intro I. cbn in I. intuition discriminate.
Defined.

(** X7.  With a mention name free of pattern syntax characters: a title
    whose opening quote is never closed, or whose quotes are empty, is
    not refused: the title is the trailing text as it stands, quote
    characters included. *)
Theorem open_quote_is_kept (appName sep A ws1 B ws2 T : str) :
  literal_source appName = true ->
  forallb isWhiteSpace sep = true ->
  is_token A = true -> is_spaces ws1 = true ->
  is_token B = true -> is_spaces ws2 = true ->
  ~ In "034"%char T \/ (exists T', T = "034"%char :: T') ->
  indexOf A B = (-1)%Z ->
  parse appName
    (lit "@" ++ appName ++ lit " create-pr" ++ sep ++ A ++ ws1 ++ B ++ ws2
     ++ ["034"%char] ++ T)
  = Command (mkCommand A B ("034"%char :: trimEnd T)).
Proof.
  intros L S HA H1 HB H2 Q I.
  assert (Q0 : forallb notQuote T = true \/ (exists T', T = quote :: T'))
    by (destruct Q as [Q|Q]; [left; apply notQuote_free; exact Q
                             | right; exact Q]).
  clear Q. rename Q0 into Q.
  change (lit "@" ++ appName ++ lit " create-pr" ++ sep ++ A ++ ws1 ++ B
          ++ ws2 ++ ["034"%char] ++ T)
    with (lit "@" ++ appName ++ lit " create-pr" ++ sep ++ A ++ ws1 ++ B
          ++ ws2 ++ [quote] ++ T).
  change ("034"%char :: trimEnd T) with (quote :: trimEnd T).
  replace (lit "@" ++ appName ++ lit " create-pr" ++ sep ++ A ++ ws1 ++ B
           ++ ws2 ++ [quote] ++ T)
    with (mention_source appName ++ sep ++ A ++ ws1 ++ B ++ ws2 ++ [quote]
          ++ T)
    by (unfold mention_source; rewrite <- !app_assoc; reflexivity).
  rewrite parse_unfold, (argument_tail_here _ _ L).
  rewrite trim_arguments by assumption.
  replace (A ++ ws1 ++ B ++ ws2 ++ [quote] ++ T)
    with ((A ++ ws1 ++ B ++ ws2) ++ quote :: T)
    by (rewrite <- !app_assoc; reflexivity).
  rewrite trimEnd_app_keep by apply quote_not_white.
  rewrite <- !app_assoc.
  assert (Q' : forallb notQuote (trimEnd T) = true
               \/ (exists T', trimEnd T = quote :: T')).
  { destruct Q as [Q | [T' ->]].
    - left. destruct (trimEnd_prefix T) as [x [E _]].
      rewrite E, forallb_app in Q. apply andb_true_iff in Q. tauto.
    - right. exists (trimEnd T').
      apply (trimEnd_app_keep [] quote T'). apply quote_not_white. }
  rewrite parse_tail_unquoted; auto using spaces_stops, quoted_title_open.
  cbv zeta. rewrite prTitle_unquoted by assumption.
  assert (E : trim (ws2 ++ quote :: trimEnd T) = quote :: trimEnd T).
  { unfold trim. rewrite trimStart_dropWhile.
    apply is_spaces_spec in H2 as [_ H2].
    rewrite dropWhile_app
      by (auto; cbn [stops]; rewrite quote_not_white; reflexivity).
    pose proof (trimEnd_app_keep [] quote (trimEnd T) quote_not_white) as K.
    cbn [app] in K. rewrite K, trimEnd_idem. reflexivity. }
  rewrite E. reflexivity.
Qed.

(** A title whose quote is never closed. *)
Lemma open_quote_is_kept_witness :
  parse (lit "om-bot")
    (lit "@" ++ lit "om-bot" ++ lit " create-pr" ++ lit " " ++ lit "dev"
     ++ lit " " ++ lit "main" ++ lit " " ++ ["034"%char] ++ lit "Fix login")
  = Command (mkCommand (lit "dev") (lit "main")
               ("034"%char :: trimEnd (lit "Fix login"))).
Proof.
  apply (open_quote_is_kept (lit "om-bot") (lit " ") (lit "dev") (lit " ")
           (lit "main") (lit " ") (lit "Fix login")).
  - reflexivity.
  - reflexivity.
  - reflexivity.
  - reflexivity.
  - reflexivity.
  - reflexivity.
  - left. intro I. cbn in I. intuition discriminate.
  - reflexivity.
Defined.

(** ** The tokens of the arguments *)



(** X9.  Whatever the form of the title, the branches of a command are
    the first two whitespace-delimited tokens that follow the phrase:
    the source branch first, the target branch second. *)
Theorem branches_are_first_tokens (appName body : str) (c : ParsedCommand) :
  literal_source appName = true ->
  parse appName body = Command c ->
  exists tail l,
    argument_tail appName body = Some tail /\
    tokens tail = sourceBranch c :: targetBranch c :: l.
Proof.
  intros _ P. rewrite parse_unfold in P.
  destruct (argument_tail appName body) as [tail|] eqn:T; [|discriminate P].
  pose proof (argument_tail_trimmed _ _ _ T) as St.
  rewrite parse_tail_spec in P by assumption.
  destruct (command_spec tail) as [parts|] eqn:C; [|discriminate P].
  destruct (command_spec_inv _ _ C)
    as [A [ws [B [rest [E [HA [Hw [HB Hr]]]]]]]].
  subst tail. exists (A ++ ws ++ B ++ rest), (tokens rest).
  split; [reflexivity|].
  rewrite command_spec_tokens in C by assumption.
  destruct (truthy (prTitle_of (A ++ ws ++ B ++ rest) parts));
    [|discriminate P].
  injection P as <-. cbn [sourceBranch targetBranch].
  rewrite tokens_of_command by assumption.
  destruct (quoted_title rest) as [[Tt more]|]; injection C as <-;
    reflexivity.
Qed.

(** The last test: [main] and [develop]. *)
Lemma branches_are_first_tokens_witness :
  exists tail l,
    argument_tail (lit "om-bot") body_unquoted = Some tail /\
    tokens tail = lit "main" :: lit "develop" :: l.
Proof.
  apply (branches_are_first_tokens (lit "om-bot") body_unquoted
           (mkCommand (lit "main") (lit "develop") (lit "My Feature Title"))).
  - reflexivity.
  - reflexivity.
Defined.

(** X10.  When the name of the target branch occurs inside the name of
    the source branch and the title is not quoted, the title is not the
    trailing text: it is cut from the end of the first such occurrence,
    so it holds what is left of the source branch name, the target
    branch name and the trailing text.  With nothing after the two
    branches the command is still accepted, with such a title. *)
Theorem earlier_occurrence_shifts_title (appName body A ws B rest : str)
    (j : nat) :
  literal_source appName = true ->
  argument_tail appName body = Some (A ++ ws ++ B ++ rest) ->
  is_token A = true -> is_spaces ws = true -> is_token B = true ->
  stops notWhiteSpace rest = true ->
  quoted_title rest = None ->
  indexOf A B = Z.of_nat j ->
  parse appName body =
    Command (mkCommand A B
               (trim (skipn (j + length B) A ++ ws ++ B ++ rest))).
Proof.
  intros _ T HA Hw HB Hr Q I. rewrite parse_unfold, T.
  apply title_after_earlier_occurrence; assumption.
Qed.

(** [release-v2 v2 Ship it]: the title is [v2 Ship it]. *)
Lemma earlier_occurrence_shifts_title_witness :
  parse (lit "om-bot") body_release
  = Command (mkCommand (lit "release-v2") (lit "v2")
               (trim (skipn (8 + length (lit "v2")) (lit "release-v2")
                      ++ lit " " ++ lit "v2" ++ lit " Ship it"))) /\
  trim (skipn (8 + length (lit "v2")) (lit "release-v2")
        ++ lit " " ++ lit "v2" ++ lit " Ship it")
  = lit "v2 Ship it".
Proof.
  split; [|reflexivity].
  apply (earlier_occurrence_shifts_title (lit "om-bot") body_release
           (lit "release-v2") (lit " ") (lit "v2") (lit " Ship it") 8).
  - reflexivity.
  - reflexivity.
  - reflexivity.
  - reflexivity.
  - reflexivity.
  - reflexivity.
  - reflexivity.
  - reflexivity.
Defined.

(** ** The simulated handler of the tests *)

(** X11.  The simulated handler of the tests has no empty-field guard.
    On a comment where the guard of the handler fires, the handler posts
    the usage comment and nothing else, while the simulation looks the
    source branch up and, when the lookup resolves, asks for a pull
    request with an empty title. *)
Theorem simulation_has_no_guard World (octokit : Octokit World)
    (APP_NAME : option str) (body : str) (w : World) :
  literal_source (appName_of_env APP_NAME) = true ->
  guard_fires (appName_of_env APP_NAME) body = true ->
  trace (handler octokit (appName_of_env APP_NAME) (mockContext body)) w
  = [comment_call (mockContext body)
       (usage_text (appName_of_env APP_NAME))] /\
  exists A B t,
    is_token A = true /\ is_token B = true /\
    calls_of (simulateCommandParsing octokit APP_NAME body) w
    = GetBranch (lit "test-owner") (lit "test-repo") A :: t /\
    forall w1,
      repos_getBranch octokit (lit "test-owner") (lit "test-repo") A w
      = (Ok tt, w1) ->
      exists t',
        t = PullsCreate (lit "test-owner") (lit "test-repo") [] A B
              (pr_body (lit "test-user") (appName_of_env APP_NAME)) :: t'.
Proof.
  intros _ G. unfold guard_fires in G.
  destruct (argument_tail (appName_of_env APP_NAME) body) as [tail|] eqn:T;
    [|discriminate G].
  destruct (leftmost commandRegex tail) as [parts|] eqn:M;
    [|discriminate G].
  split.
  - rewrite handler_dispatch. cbn [comment_body mockContext].
    rewrite parse_unfold, T. unfold parse_tail. rewrite M. cbv zeta.
    rewrite G. cbn [dispatch]. apply trace_createComment.
  - destruct (command_parts tail parts (argument_tail_trimmed _ _ _ T) M)
      as [HA HB].
    exists (m_str parts 1), (m_str parts 2).
    assert (E : prTitle_of tail parts = []).
    { apply truthy_false. unfold is_token in HA, HB.
      apply andb_true_iff in HA as [HA _]. apply andb_true_iff in HB as [HB _].
      rewrite HA, HB in G. cbn [negb orb] in G.
      apply negb_true_iff in G. exact G. }
    rewrite simulate_unfold, T, M, E.
    run_calls; eexists; (split; [assumption|]); (split; [assumption|]);
      (split; [reflexivity|]); intros ? Q; inversion Q; subst;
      eexists; reflexivity.
Qed.

(** The third test, which expects the usage comment and no lookup. *)
Lemma simulation_has_no_guard_witness :
  trace (handler (mockOctokit (Ok tt) (Ok pull_1))
           (appName_of_env (Some (lit "om-bot")))
           (mockContext body_missing_title)) tt
  = [comment_call (mockContext body_missing_title)
       (usage_text (appName_of_env (Some (lit "om-bot"))))] /\
  exists A B t,
    is_token A = true /\ is_token B = true /\
    calls_of (simulateCommandParsing (mockOctokit (Ok tt) (Ok pull_1))
                (Some (lit "om-bot")) body_missing_title) tt
    = GetBranch (lit "test-owner") (lit "test-repo") A :: t /\
    forall w1,
      repos_getBranch (mockOctokit (Ok tt) (Ok pull_1)) (lit "test-owner")
        (lit "test-repo") A tt = (Ok tt, w1) ->
      exists t',
        t = PullsCreate (lit "test-owner") (lit "test-repo") [] A B
              (pr_body (lit "test-user")
                 (appName_of_env (Some (lit "om-bot")))) :: t'.
Proof.
  apply (simulation_has_no_guard unit (mockOctokit (Ok tt) (Ok pull_1))
           (Some (lit "om-bot")) body_missing_title tt).
  - reflexivity.
  - reflexivity.
Defined.

(** X12.  The simulated handler does not read the answer of the
    creation: when lookup, creation and comment resolve, its success
    comment and its result carry the address of pull request 1 of the
    test repository, whatever address the creation returned. *)
Theorem simulation_reports_fixed_address World (octokit : Octokit World)
    (APP_NAME : option str) (body : str) (c : ParsedCommand)
    (w w1 w2 w3 : World) (html_url : str) :
  literal_source (appName_of_env APP_NAME) = true ->
  parse (appName_of_env APP_NAME) body = Command c ->
  repos_getBranch octokit (lit "test-owner") (lit "test-repo")
    (sourceBranch c) w = (Ok tt, w1) ->
  pulls_create octokit (lit "test-owner") (lit "test-repo") (title c)
    (sourceBranch c) (targetBranch c)
    (pr_body (lit "test-user") (appName_of_env APP_NAME)) w1
  = (Ok html_url, w2) ->
  issues_createComment octokit (lit "test-owner") (lit "test-repo") 123
    (success_text pull_1) w2 = (Ok tt, w3) ->
  result_of (simulateCommandParsing octokit APP_NAME body) w
  = Ok (SimSuccess pull_1) /\
  calls_of (simulateCommandParsing octokit APP_NAME body) w
  = [lookup_call (mockContext body) c;
     creation_call (appName_of_env APP_NAME) (mockContext body) c;
     comment_call (mockContext body) (success_text pull_1)].
Proof.
  intros _ P G C S. rewrite parse_unfold in P. rewrite simulate_unfold.
  destruct (argument_tail (appName_of_env APP_NAME) body) as [tail|];
    [|discriminate P].
  unfold parse_tail in P.
  destruct (leftmost commandRegex tail) as [parts|]; [|discriminate P].
  cbv zeta in P. destruct (_ || _) in P; [discriminate P|].
  injection P as <-. cbn [sourceBranch targetBranch title] in *.
  unfold lookup_call, creation_call, comment_call, result_of, calls_of,
    try_catch, bind, ret, getBranch, create, createComment, call.
  cbn [fst snd mockContext repo_owner repo_repo issue_number
         comment_user_login sourceBranch targetBranch title].
  rewrite G. cbn [fst snd]. rewrite C. cbn [fst snd]. rewrite S.
  split; reflexivity.
Qed.

(** The eighth test, which expects the address of pull request 2 in the
    comment. *)
Lemma simulation_reports_fixed_address_witness :
  result_of (simulateCommandParsing (mockOctokit (Ok tt) (Ok pull_2))
               (Some (lit "om-bot")) body_quoted_title) tt
  = Ok (SimSuccess pull_1) /\
  calls_of (simulateCommandParsing (mockOctokit (Ok tt) (Ok pull_2))
              (Some (lit "om-bot")) body_quoted_title) tt
  = [lookup_call (mockContext body_quoted_title) command_quoted_title;
     creation_call (appName_of_env (Some (lit "om-bot")))
       (mockContext body_quoted_title) command_quoted_title;
     comment_call (mockContext body_quoted_title) (success_text pull_1)].
Proof.
  apply (simulation_reports_fixed_address unit
           (mockOctokit (Ok tt) (Ok pull_2)) (Some (lit "om-bot"))
           body_quoted_title command_quoted_title tt tt tt tt pull_2).
  - reflexivity.
  - reflexivity.
  - reflexivity.
  - reflexivity.
  - reflexivity.
Defined.

(** X13.  Apart from the guard and the address of the success comment,
    the simulation is the handler: on the event of the tests, when the
    guard of the handler does not fire and the creation answers with the
    address of pull request 1 whenever it resolves, both issue the same
    calls in the same order. *)
Theorem simulation_agrees_with_handler World (octokit : Octokit World)
    (APP_NAME : option str) (body : str) (w : World) :
  literal_source (appName_of_env APP_NAME) = true ->
  guard_fires (appName_of_env APP_NAME) body = false ->
  (forall owner repo prTitle head base text w0 html_url w1,
     pulls_create octokit owner repo prTitle head base text w0
     = (Ok html_url, w1) -> html_url = pull_1) ->
  calls_of (simulateCommandParsing octokit APP_NAME body) w
  = trace (handler octokit (appName_of_env APP_NAME) (mockContext body)) w.
Proof.
  intros _ G U. unfold guard_fires in G.
  rewrite simulate_unfold, handler_dispatch. cbn [comment_body mockContext].
  rewrite parse_unfold.
  destruct (argument_tail (appName_of_env APP_NAME) body) as [tail|];
    [|reflexivity].
  unfold parse_tail.
  destruct (leftmost commandRegex tail) as [parts|].
  - cbv zeta. rewrite G. cbn [dispatch sourceBranch targetBranch title].
    unfold trace, run, calls_of, execute, try_catch, bind, ret, getBranch,
      create, createComment, call.
    cbn [fst snd repo_owner repo_repo issue_number comment_user_login].
    destruct (repos_getBranch _ _ _ _ _) as [[[]|e] w1]; cbn [fst snd].
    + destruct (pulls_create _ _ _ _ _ _ _ _) as [[url|e] w2] eqn:C;
        cbn [fst snd].
      * apply U in C. subst url.
        destruct (issues_createComment _ _ _ _ _ _) as [[[]|e] w3];
          cbn [fst snd]; [reflexivity|].
        destruct (issues_createComment _ _ _ _ _ _) as [[[]|e'] w4];
          reflexivity.
      * destruct (issues_createComment _ _ _ _ _ _) as [[[]|e'] w3];
          reflexivity.
    + destruct (issues_createComment _ _ _ _ _ _) as [[[]|e'] w3];
        reflexivity.
  - cbn [dispatch].
    unfold trace, run, calls_of, bind, ret, createComment, call.
    cbn [fst snd repo_owner repo_repo issue_number].
    destruct (issues_createComment _ _ _ _ _ _) as [[[]|e'] w3];
      reflexivity.
Qed.

(** The fourth test: the lookup is rejected with 404. *)
Lemma simulation_agrees_with_handler_witness :
  calls_of (simulateCommandParsing
              (mockOctokit (Throw branchNotFoundError) (Ok pull_1))
              (Some (lit "om-bot")) body_lookup_failure) tt
  = trace (handler (mockOctokit (Throw branchNotFoundError) (Ok pull_1))
             (appName_of_env (Some (lit "om-bot")))
             (mockContext body_lookup_failure)) tt.
Proof.
  apply (simulation_agrees_with_handler unit
           (mockOctokit (Throw branchNotFoundError) (Ok pull_1))
           (Some (lit "om-bot")) body_lookup_failure tt).
  - reflexivity.
  - reflexivity.
  - intros owner repo prTitle head base text w0 html_url w1 H.
    injection H as <- _. reflexivity.
Defined.

(** ** Start-up *)

(** X14.  The server is built only from a complete configuration: when
    start-up gets past its checks, the app id, the path of the key file
    and the webhook secret were all set and not empty, the private key
    is the content of the file at that path, read once and after the
    check of the variables, and the mention name is not empty, the
    default name standing in for an unset or empty one. *)
Theorem configured_only_when_complete (env : Env)
    (readFileSync : str -> Result str) (effects : list StartEffect)
    (appId privateKey webhookSecret appName port : str) :
  startup env readFileSync
  = (effects, Configured appId privateKey webhookSecret appName port) ->
  APP_ID env = Some appId /\ appId <> [] /\
  WEBHOOK_SECRET env = Some webhookSecret /\ webhookSecret <> [] /\
  (exists path,
     PRIVATE_KEY_PATH env = Some path /\ path <> [] /\
     readFileSync path = Ok privateKey /\ effects = [ReadFile path]) /\
  appName = appName_of_env (APP_NAME env) /\ appName <> [].
Proof.
  unfold startup.
  destruct (falsy (APP_ID env)) eqn:F1; [discriminate|].
  destruct (falsy (PRIVATE_KEY_PATH env)) eqn:F2; [discriminate|].
  destruct (falsy (WEBHOOK_SECRET env)) eqn:F3; [discriminate|].
  cbn [orb].
  apply falsy_false in F1 as [a [E1 [N1 J1]]].
  apply falsy_false in F2 as [p [E2 [N2 J2]]].
  apply falsy_false in F3 as [s [E3 [N3 J3]]].
  rewrite J1, J2, J3.
  destruct (readFileSync p) as [key|error] eqn:R; [|discriminate].
  intro H. injection H as <- <- <- <- <- <-.
  repeat split; auto.
  - exists p. auto.
  - apply js_or_default. discriminate.
Qed.

(** A complete environment and a readable key file. *)
Lemma configured_only_when_complete_witness :
  APP_ID env_complete = Some (lit "12345") /\ lit "12345" <> [] /\
  WEBHOOK_SECRET env_complete = Some (lit "s3cret") /\ lit "s3cret" <> [] /\
  (exists path,
     PRIVATE_KEY_PATH env_complete = Some path /\ path <> [] /\
     fs_with_key path = Ok (lit "KEY") /\
     [ReadFile (lit "./private-key.pem")] = [ReadFile path]) /\
  lit "om-bot" = appName_of_env (APP_NAME env_complete) /\
  lit "om-bot" <> [].
Proof.
  apply (configured_only_when_complete env_complete fs_with_key
           [ReadFile (lit "./private-key.pem")] (lit "12345") (lit "KEY")
           (lit "s3cret") (lit "om-bot") (lit "3000")).
  reflexivity.
Defined.
